(** * auto_routes: a generated CRUD router with a read-through cache

    Shallow embedding of [src/auto_routes.py].  [crud_router] builds, for one
    SQLModel class, a set of request handlers that close over the router's
    configuration ([model], [ttl], [login_fields], [login_ttl]) and share
    two process-wide key/value stores ([cache], [sessions_cache]) and the
    database behind [Session(engine)].

    The handlers are embedded as computations in a state-and-exception
    monad over a [world] record holding the table, the two stores, the
    clock read by the stores and the logger's output.  A handler body
    contains no [await] between acquiring and releasing the semaphore, so
    it runs without interleaving and is embedded as one step. *)

From Stdlib Require Import ZArith String Ascii DecimalString DecimalPos DecimalZ Lia.
From stdpp Require Import gmap strings list fin_maps.

Open Scope Z_scope.

(** ** Python builtins used by the source *)

Module Py.

(** [str(i)] on an [int]: decimal digits, a leading [-] when negative. *)
Definition str_of_int (z : Z) : string :=
  NilZero.string_of_int (Z.to_int z).

(** [s.startswith(p)] *)
Definition startswith (p s : string) : bool := String.prefix p s.

(** The scan behind [s.replace(old, "")]: left to right, an occurrence of
    [old] at the current position is dropped whole ([skip] counts the
    characters of it that remain to be dropped), any other character is
    kept. *)
Fixpoint remove_go (old : string) (skip : nat) (s : string) : string :=
  match s with
  | EmptyString => EmptyString
  | String c s' =>
      match skip with
      | S k => remove_go old k s'
      | O =>
          if String.prefix old s
          then remove_go old (Nat.pred (String.length old)) s'
          else String c (remove_go old 0 s')
      end
  end.

(** [s.replace(old, "")]; replacing the empty string by itself is the
    identity. *)
Definition remove (old s : string) : string :=
  match old with
  | EmptyString => s
  | _ => remove_go old 0 s
  end.

(** [old in s] *)
Definition occurs (old s : string) : Prop :=
  ∃ a b, s = a +:+ old +:+ b.

End Py.

(** ** Values, entities and cached snapshots *)

(** The JSON-like values a field of an entity can hold. *)
Inductive value :=
| VNone
| VBool (b : bool)
| VInt (n : Z)
| VStr (s : string).

#[global] Instance value_eq_dec : EqDecision value.
Proof. solve_decision. Defined.

(** [str(v)], as an f-string interpolates it. *)
Definition py_str (v : value) : string :=
  match v with
  | VNone => "None"
  | VBool true => "True"
  | VBool false => "False"
  | VInt n => Py.str_of_int n
  | VStr s => s
  end.

(** An entity is the mapping of its fields, [id] among them: what
    [model_dump()] returns, and what [getattr]/[setattr] read and write. *)
Abbreviation item := (gmap string value).

(** [getattr(item, f)] for a declared field; an unset optional field reads
    [None]. *)
Definition getattr (it : item) (f : string) : value := default VNone (it !! f).

(** [setattr(item, key, value)] for a field *)
Definition setattr (it : item) (key : string) (v : value) : item :=
  <[key := v]> it.

(** A JSON object as the framework hands it to a handler typed [dict]: its
    keys, which are distinct, in the order [items()] yields them. *)
Abbreviation dict := (list (string * value)).

Module Dict.

(** [data.get(key)]; [None] for a key the object lacks. *)
Fixpoint get (data : dict) (key : string) : option value :=
  match data with
  | [] => None
  | (k, v) :: rest => if String.eqb k key then Some v else get rest key
  end.

(** [key in data] *)
Definition contains (data : dict) (key : string) : bool :=
  match get data key with Some _ => true | None => false end.

End Dict.

(** What [_set_cache] stores after serialisation: one entity, a page of
    entities, or a scalar count. *)
Inductive cval :=
| CItem (d : item)
| CList (l : list item)
| CInt (n : Z).

#[global] Instance cval_eq_dec : EqDecision cval.
Proof. solve_decision. Defined.

(** ** Exceptions *)

Inductive failure :=
| HTTPException (status_code : Z)
| IntegrityError
| ValueError
| TypeError.

(** ** The engine

    [engine] is imported from [app.db.config], which is not part of the
    source: it is a parameter here.  The table is embedded below as the
    list of its rows, and a statement whose operands are of the column's
    type is answered from that list.  What is left to the engine is what
    the source leaves to it: how it compares a column with a parameter of
    another type, and which edited rows the table's constraints let it
    store.  The engine is taken to answer every statement. *)
Record Engine := {
  (* The key that a string or a boolean, bound as a parameter to the
     integer primary-key column, is compared as: SQLite compares ['1'] as
     1.  [None] when it equals no key. *)
  pk_of : value → option Z;
  (* [column == parameter] in a WHERE clause, for the value a row holds in
     the column and a string parameter. *)
  sql_eq : value → string → bool;
  (* Whether the UPDATEs that take the table from the first list of rows
     to the second are carried out; a constraint of the table (NOT NULL,
     UNIQUE, ...) that one of them violates makes the flush raise.  It is
     asked where rows are edited from untyped input, in [update_items];
     the writes of validated bodies are embedded with the primary-key
     constraint alone. *)
  accepts : list item → list item → bool
}.

(** ** The world the handlers run in *)

(** An entry of a diskcache store: the value and the absolute time at which
    it expires, if it ever does. *)
Record stored (A : Type) := Stored { s_val : A; s_expire : option Z }.
Arguments Stored {A} _ _.
Arguments s_val {A} _.
Arguments s_expire {A} _.

Inductive level := WARNING | INFO.

Record world := World {
  db : list item;                       (* the model's table, in insertion order *)
  cache : gmap string (stored cval);    (* cache = Cache("./cache") *)
  sessions : gmap string (stored item); (* sessions_cache *)
  now : Z;                              (* the clock the stores read *)
  log : list (level * string)           (* what the logger has emitted *)
}.

Definition set_db (d : list item) (w : world) : world :=
  World d (cache w) (sessions w) (now w) (log w).
Definition set_cache (c : gmap string (stored cval)) (w : world) : world :=
  World (db w) c (sessions w) (now w) (log w).
Definition set_sessions (s : gmap string (stored item)) (w : world) : world :=
  World (db w) (cache w) s (now w) (log w).
Definition set_now (t : Z) (w : world) : world :=
  World (db w) (cache w) (sessions w) t (log w).
Definition add_log (l : level) (msg : string) (w : world) : world :=
  World (db w) (cache w) (sessions w) (now w) (log w ++ [(l, msg)]).

(** *** diskcache *)

Module Disk.
Section Store.
Context {A : Type}.

(** An entry is served while it has no expiry or its expiry lies in the
    future. *)
Definition alive (t : Z) (e : stored A) : bool :=
  match s_expire e with
  | None => true
  | Some x => t <? x
  end.

(** [store.get(key)] at time [t] *)
Definition get (t : Z) (key : string) (s : gmap string (stored A)) : option A :=
  match s !! key with
  | Some e => if alive t e then Some (s_val e) else None
  | None => None
  end.

(** [store.set(key, v, expire=e)] at time [t]; [expire=None] never
    expires. *)
Definition set (t : Z) (key : string) (v : A) (expire : option Z)
    (s : gmap string (stored A)) : gmap string (stored A) :=
  <[key := Stored v ((λ e, t + e) <$> expire)]> s.

(** [store.delete(key)].  diskcache deletes the row of a key only while
    it is live; a row that has expired stays in its file, where [get] and
    [in] answer for it as for a missing key and [set] replaces it.  Here
    the entry goes in either case, which no later call can tell apart. *)
Definition del (key : string) (s : gmap string (stored A)) : gmap string (stored A) :=
  delete key s.

(** [key in store] *)
Definition contains (t : Z) (key : string) (s : gmap string (stored A)) : bool :=
  match get t key s with Some _ => true | None => false end.
End Store.
End Disk.

(** *** The table behind [Session(engine)]

    A session is embedded as a transaction-local copy of the table: the
    handler reads and edits the copy and [commit] publishes it; a handler
    that raises before [commit] leaves the table as it was. *)

Module Table.

Definition row_id (r : item) : option Z :=
  match r !! "id" with
  | Some (VInt i) => Some i
  | _ => None
  end.

Definition has_id (i : Z) (r : item) : bool :=
  bool_decide (r !! "id" = Some (VInt i)).

(** [session.get(model, i)] *)
Definition get (i : Z) (d : list item) : option item :=
  List.find (has_id i) d.

(** The key that a value taken from untyped input denotes when it is
    given as the primary key: an integer is itself, [None] is the key of
    no row, and what a string or a boolean is compared as is the
    engine's. *)
Definition key_of_value (engine : Engine) (v : value) : option Z :=
  match v with
  | VInt i => Some i
  | VNone => None
  | _ => pk_of engine v
  end.

(** The query behind [session.get(model, pk)] for such a value: the row,
    with the integer key it was found under. *)
Definition get_pk (engine : Engine) (pk : option value) (d : list item)
    : option (Z * item) :=
  match pk ≫= key_of_value engine with
  | Some i => (λ r, (i, r)) <$> get i d
  | None => None
  end.

(** The key an auto-increment integer primary key receives: one more than
    the largest in use, 1 in an empty table. *)
Definition next_id (d : list item) : Z :=
  match omap row_id d with
  | [] => 1
  | i :: l => 1 + fold_right Z.max i l
  end.

(** [session.add(item); session.commit(); session.refresh(item)] for a new
    row.  Without an [id] the row receives [next_id]; with one it is
    inserted under it, and the commit fails when the key is taken. *)
Definition insert (it : item) (d : list item) : option (item * list item) :=
  match it !! "id" with
  | None | Some VNone =>
      let it' := <["id" := VInt (next_id d)]> it in Some (it', d ++ [it'])
  | Some (VInt i) =>
      match get i d with
      | Some _ => None
      | None => Some (it, d ++ [it])
      end
  | Some _ => None
  end.

(** [session.add_all(items); session.commit()] and the refreshed items *)
Fixpoint insert_all (items : list item) (d : list item)
    : option (list item * list item) :=
  match items with
  | [] => Some ([], d)
  | it :: rest =>
      match insert it d with
      | None => None
      | Some (it', d') =>
          match insert_all rest d' with
          | None => None
          | Some (its, d'') => Some (it' :: its, d'')
          end
      end
  end.

(** The row with key [i] replaced by [it] *)
Fixpoint replace (i : Z) (it : item) (d : list item) : list item :=
  match d with
  | [] => []
  | r :: d' => if has_id i r then it :: d' else r :: replace i it d'
  end.

(** Flushing an edited row loaded under key [i]: the row is rewritten in
    place, primary key included; the flush fails when the new key is not
    an integer or belongs to another row. *)
Definition update (i : Z) (it : item) (d : list item) : option (list item) :=
  match it !! "id" with
  | Some (VInt j) =>
      if bool_decide (j = i) then Some (replace i it d)
      else match get j d with
           | Some _ => None
           | None => Some (replace i it d)
           end
  | _ => None
  end.

(** The DELETE that flushing [session.delete(item)] issues for the row
    with key [i] *)
Definition remove (i : Z) (d : list item) : list item :=
  List.filter (λ r, negb (has_id i r)) d.

(** Flushing a session in which the objects with the keys [pending] are
    marked as deleted. *)
Definition flush_deleted (pending : list Z) (d : list item) : list item :=
  foldr remove d pending.

(** [select(model).offset(skip).limit(limit)] *)
Definition select (skip limit : Z) (d : list item) : list item :=
  take (Z.to_nat limit) (drop (Z.to_nat skip) d).

(** [select(func.count()).select_from(model)] *)
Definition count (d : list item) : Z := Z.of_nat (length d).

End Table.

(** ** Handlers as computations *)

Inductive result (A : Type) :=
| Ok (a : A)
| Raise (e : failure).
Arguments Ok {A} _.
Arguments Raise {A} _.

(** A computation reads and writes the world and either returns or raises;
    what it wrote before raising stays written. *)
Definition M (A : Type) : Type := world → result A * world.

#[global] Instance M_ret : MRet M := λ A a w, (Ok a, w).
#[global] Instance M_bind : MBind M := λ A B f m w,
  match m w with
  | (Ok a, w') => f a w'
  | (Raise e, w') => (Raise e, w')
  end.

Definition raise {A} (e : failure) : M A := λ w, (Raise e, w).
Definition gets {A} (f : world → A) : M A := λ w, (Ok (f w), w).
Definition modify (f : world → world) : M unit := λ w, (Ok tt, f w).

(** [for x in l: body(x)] *)
Fixpoint for_each {A} (l : list A) (body : A → M unit) : M unit :=
  match l with
  | [] => mret tt
  | x :: l' => body x;; for_each l' body
  end.

Definition logger_warning (msg : string) : M unit := modify (add_log WARNING msg).
Definition logger_info (msg : string) : M unit := modify (add_log INFO msg).

(** [f"Item com ID {id} não encontrado, pulando"] *)
Definition not_found_msg (id : string) : string :=
  "Item com ID " +:+ id +:+ " não encontrado, pulando".

(** [f"Deletados {deleted_count} de {len(ids)} itens solicitados"] *)
Definition deleted_msg (deleted_count requested : Z) : string :=
  "Deletados " +:+ Py.str_of_int deleted_count +:+ " de "
  +:+ Py.str_of_int requested +:+ " itens solicitados".

(** What a handler hands back to the framework. *)
Inductive response :=
| RNone                                   (* [None]: an empty body *)
| RBody (v : cval)                        (* an entity, a list, or a cached snapshot *)
| RCount (v : cval)                       (* [{"count": v}] *)
| RLogin (token : string) (user : item)   (* [{"token": .., "user": ..}] *)
| RDetail (detail : string).              (* [{"detail": ..}] *)

Definition HTTP_400_BAD_REQUEST : Z := 400.
Definition HTTP_401_UNAUTHORIZED : Z := 401.
Definition HTTP_404_NOT_FOUND : Z := 404.
Definition HTTP_422_UNPROCESSABLE : Z := 422.


(** ** The router: [crud_router(model, ttl, max_concurrent, login, login_fields, login_ttl, auth)]

    The configuration the handlers close over.  [max_concurrent] only sizes
    the semaphore and [login] selects which handlers are mounted; neither
    is read by a handler body, and both are followed where the router is
    built, further down.

    Of the class [model] the handlers use its name and, through [hasattr]
    and [setattr] on its instances, the attributes an instance has besides
    its fields.  [non_field] gives, for the name of such an attribute, the
    exception that assigning to it raises: pydantic refuses a method or a
    class attribute ([model_dump], [model_fields], ...) with [ValueError],
    Python refuses [__class__] with [TypeError].  It is [None] for every
    other name. *)

Section Router.

Variable engine : Engine.              (* from app.db.config import engine *)
Variable model_name : string.          (* model.__name__.lower() *)
Variable non_field : string → option failure.
Variable ttl : option Z.
Variable login_fields : list string.
Variable login_ttl : Z.
Variable auth : bool.

(** *** Cache keys *)

(** [f"{model_name}_{item_id}"] *)
Definition key_id (item_id : Z) : string :=
  model_name +:+ "_" +:+ Py.str_of_int item_id.

(** [f"{model_name}_{item.id}"] *)
Definition key_of (it : item) : string :=
  model_name +:+ "_" +:+ py_str (getattr it "id").

(** [f"{model_name}_all"] *)
Definition key_all : string := model_name +:+ "_all".

(** [f"{model_name}_count"] *)
Definition key_count : string := model_name +:+ "_count".

(** [f"{model_name}_all_{skip}_{limit}"] *)
Definition key_page (skip limit : Z) : string :=
  model_name +:+ "_all_" +:+ Py.str_of_int skip +:+ "_" +:+ Py.str_of_int limit.

(** *** Cache helpers *)

(** Python truthiness of [ttl]: [None] and [0] are false. *)
Definition truthy (o : option Z) : bool :=
  match o with
  | Some t => negb (t =? 0)
  | None => false
  end.

(** Each helper wraps one store call in [try]/[except] and logs a failure
    instead of raising; the stores are embedded as total maps, whose calls
    do not fail.  [value] arrives already serialised: an entity is its
    field mapping, a list of entities the list of theirs, a count
    itself. *)
Definition _set_cache (key : string) (value : cval) (use_ttl : bool) : M unit :=
  modify (λ w,
    if use_ttl && truthy ttl
    then set_cache (Disk.set (now w) key value ttl (cache w)) w
    else set_cache (Disk.set (now w) key value None (cache w)) w).

(** For stating what [_set_cache] writes: the expiry of an entry written at
    time [t] is [ttl] seconds from [t], and none when [ttl] is [None] or
    [0]. *)
Definition entry_expiry (t : Z) : option Z :=
  match ttl with
  | Some x => if x =? 0 then None else Some (t + x)
  | None => None
  end.

Definition _get_cache (key : string) : M (option cval) :=
  gets (λ w, Disk.get (now w) key (cache w)).

Definition _delete_cache (key : string) : M unit :=
  modify (λ w, set_cache (Disk.del key (cache w)) w).

Definition _invalidate_all_cache : M unit :=
  _delete_cache key_all;;
  _delete_cache key_count.

(** *** Authentication *)

Definition verify_token (authorization : string) : M item :=
  if negb (Py.startswith "Bearer " authorization)
  then raise (HTTPException HTTP_401_UNAUTHORIZED)
  else
    let token := Py.remove "Bearer " authorization in
    user_data ← gets (λ w, Disk.get (now w) token (sessions w));
    match user_data with
    | None => raise (HTTPException HTTP_401_UNAUTHORIZED)
    | Some u => mret u
    end.

(** [user_data=auth_dependency]: with [auth] the framework runs
    [verify_token] on the request's header before the handler. *)
Definition guarded {A} (authorization : string) (handler : M A) : M A :=
  if auth then verify_token authorization;; handler else handler.

(** [stmt.where(getattr(model, field) == getattr(data, field))] for every
    login field: the engine finds what the row holds in the field equal to
    the submitted string, in each of them. *)
Definition matches (data : string → string) (r : item) : bool :=
  forallb (λ f, sql_eq engine (getattr r f) (data f)) login_fields.

(** [{f: getattr(user, f) for f in login_fields}] *)
Definition login_subset (user : item) : item :=
  list_to_map ((λ f, (f, getattr user f)) <$> login_fields).

(** [token] is what [secrets.token_hex(16)] returned for this request. *)
Definition login_route (data : string → string) (token : string) : M response :=
  d ← gets db;
  match List.find (matches data) d with
  | None => raise (HTTPException HTTP_401_UNAUTHORIZED)
  | Some user =>
      modify (λ w, set_sessions
        (Disk.set (now w) token (login_subset user) (Some login_ttl) (sessions w)) w);;
      mret (RLogin token (login_subset user))
  end.

Definition logout_route (authorization : string) : M response :=
  if negb (Py.startswith "Bearer " authorization)
  then raise (HTTPException HTTP_401_UNAUTHORIZED)
  else
    let token := Py.remove "Bearer " authorization in
    present ← gets (λ w, Disk.contains (now w) token (sessions w));
    if (present : bool)
    then
      modify (λ w, set_sessions (Disk.del token (sessions w)) w);;
      mret (RDetail "Logout realizado com sucesso")
    else raise (HTTPException HTTP_401_UNAUTHORIZED).

(** *** Create *)

Definition create_item (it : item) : M response :=
  d ← gets db;
  match Table.insert it d with
  | None => raise IntegrityError
  | Some (it', d') =>
      modify (set_db d');;
      _invalidate_all_cache;;
      _delete_cache (key_of it');;
      _set_cache (key_of it') (CItem it') true;;
      mret (RBody (CItem it'))
  end.

Definition create_items (items : list item) : M response :=
  match items with
  | [] => raise (HTTPException HTTP_400_BAD_REQUEST)
  | _ =>
      d ← gets db;
      match Table.insert_all items d with
      | None => raise IntegrityError
      | Some (items', d') =>
          modify (set_db d');;
          for_each items' (λ it,
            _delete_cache (key_of it);;
            _set_cache (key_of it) (CItem it) true);;
          _invalidate_all_cache;;
          mret (RBody (CList items'))
      end
  end.

(** *** Read *)

(** [skip] and [limit] arrive through [Query(0, ge=0)] and
    [Query(100, ge=1, le=1000)]; the framework rejects anything else. *)
Definition read_items (skip limit : Z) : M response :=
  if negb ((0 <=? skip) && (1 <=? limit) && (limit <=? 1000))
  then raise (HTTPException HTTP_422_UNPROCESSABLE)
  else
    let cache_key := key_page skip limit in
    cached_items ← _get_cache cache_key;
    match cached_items with
    | Some v => mret (RBody v)
    | None =>
        d ← gets db;
        let items := Table.select skip limit d in
        _set_cache cache_key (CList items) true;;
        mret (RBody (CList items))
    end.

Definition count_items : M response :=
  let cache_key := key_count in
  cached_count ← _get_cache cache_key;
  match cached_count with
  | Some v => mret (RCount v)
  | None =>
      d ← gets db;
      let count := Table.count d in
      _set_cache cache_key (CInt count) true;;
      mret (RCount (CInt count))
  end.

Definition read_item (item_id : Z) : M response :=
  cached_item ← _get_cache (key_id item_id);
  match cached_item with
  | Some v => mret (RBody v)
  | None =>
      d ← gets db;
      match Table.get item_id d with
      | None => raise (HTTPException HTTP_404_NOT_FOUND)
      | Some it =>
          _set_cache (key_id item_id) (CItem it) true;;
          mret (RBody (CItem it))
      end
  end.

(** *** Update *)

(** [for key, value in update_data.items(): setattr(item, key, value)] *)
Definition apply_update (update_data : item) (it : item) : item :=
  map_fold (λ key v acc, setattr acc key v) it update_data.

(** [update_data] is [item_data.model_dump(exclude_unset=True)]: the fields
    the request set explicitly. *)
Definition update_item (item_id : Z) (update_data : item) : M response :=
  d ← gets db;
  match Table.get item_id d with
  | None => raise (HTTPException HTTP_404_NOT_FOUND)
  | Some it =>
      let it' := apply_update update_data it in
      match Table.update item_id it' d with
      | None => raise IntegrityError
      | Some d' =>
          modify (set_db d');;
          _delete_cache (key_id item_id);;
          _invalidate_all_cache;;
          _set_cache (key_id item_id) (CItem it') true;;
          mret (RBody (CItem it'))
      end
  end.

(** [hasattr(item, key)]: a field of the entity, or another attribute of
    the instance. *)
Definition hasattr (it : item) (key : string) : bool :=
  bool_decide (is_Some (it !! key)) || bool_decide (is_Some (non_field key)).

(** [setattr(item, key, value)] for a name taken from untyped input: a
    field takes the value; for any other name the assignment raises, with
    pydantic's [ValueError] ("object has no field") unless [non_field]
    names another exception. *)
Definition setattr_any (it : item) (key : string) (v : value) : failure + item :=
  match it !! key with
  | Some _ => inr (setattr it key v)
  | None => inl (default ValueError (non_field key))
  end.

(** The inner loop of [update_items]:
    [if key != "id" and hasattr(item, key): setattr(item, key, value)] *)
Fixpoint apply_entry (data : dict) (it : item) : failure + item :=
  match data with
  | [] => inr it
  | (key, v) :: rest =>
      if bool_decide (key ≠ "id") && hasattr it key
      then match setattr_any it key v with
           | inl e => inl e
           | inr it' => apply_entry rest it'
           end
      else apply_entry rest it
  end.

(** [session.flush()] of the rows the session has edited, [flushed] being
    the table as the transaction last wrote it and [sess] the table with
    the session's edits: nothing is issued when nothing has changed, and
    otherwise the engine carries the UPDATEs out or refuses them. *)
Definition flushes (flushed sess : list item) : bool :=
  bool_decide (sess = flushed) || accepts engine flushed sess.

(** The key under which the session's identity map holds an object that
    [session.get(model, pk)] is asked for, [held] being the keys of the
    objects the session holds.  Python compares the keys, so [True] finds
    the object with key [1]; a string finds none. *)
Definition identity (pk : option value) (held : list Z) : option Z :=
  match pk with
  | Some (VInt i) => if bool_decide (i ∈ held) then Some i else None
  | Some (VBool b) =>
      if bool_decide (Z.b2z b ∈ held) then Some (Z.b2z b) else None
  | _ => None
  end.

(** [session.get(model, pk)] in a session that holds edited objects.  An
    object the identity map holds is returned as the session has it, and
    no statement is issued.  Otherwise the session flushes its edits
    before it queries (autoflush), which raises when the engine refuses
    them.  Returns the table as the transaction has written it, and the
    row found with its key. *)
Definition session_get (pk : option value) (flushed sess : list item)
    (held : list Z) : M (list item * option (Z * item)) :=
  match identity pk held with
  | Some i => mret (flushed, (λ it, (i, it)) <$> Table.get i sess)
  | None =>
      if flushes flushed sess
      then mret (sess, Table.get_pk engine pk sess)
      else raise IntegrityError
  end.

(** The outer loop of [update_items] over the session: [flushed] is the
    table as the transaction has written it, [sess] the table with the
    session's edits.  [updated] collects references to the edited objects,
    held here by primary key: an entry that names a row a second time
    edits, and appends, the same object. *)
Fixpoint update_loop (items_data : list dict) (flushed sess : list item)
    (updated : list Z) : M (list item * list item * list Z) :=
  match items_data with
  | [] => mret (flushed, sess, updated)
  | data :: rest =>
      '(flushed', found) ← session_get (Dict.get data "id") flushed sess updated;
      match found with
      | None =>
          logger_warning
            (not_found_msg (py_str (default VNone (Dict.get data "id"))));;
          update_loop rest flushed' sess updated
      | Some (i, it) =>
          match apply_entry data it with
          | inl e => raise e
          | inr it' =>
              update_loop rest flushed' (Table.replace i it' sess) (updated ++ [i])
          end
      end
  end.

(** What [update_items] does after its loop: [session.commit()] flushes
    what is left to flush, and raises when the engine refuses it; the
    cache is touched only after the commit. *)
Definition update_items_commit (flushed d' : list item) (updated : list Z)
    : M response :=
  if flushes flushed d'
  then
    modify (set_db d');;
    let refreshed := omap (λ i, Table.get i d') updated in
    for_each refreshed (λ it,
      _delete_cache (key_of it);;
      _set_cache (key_of it) (CItem it) true);;
    _invalidate_all_cache;;
    mret (RBody (CList refreshed))
  else raise IntegrityError.

Definition update_items (items_data : list dict) : M response :=
  match items_data with
  | [] => raise (HTTPException HTTP_400_BAD_REQUEST)
  | _ =>
      if existsb (λ data, negb (Dict.contains data "id")) items_data
      then raise (HTTPException HTTP_400_BAD_REQUEST)
      else
        d ← gets db;
        '(flushed, d', updated) ← update_loop items_data d d [];
        update_items_commit flushed d' updated
  end.

(** *** Delete *)

Definition delete_item (item_id : Z) : M response :=
  d ← gets db;
  match Table.get item_id d with
  | None => raise (HTTPException HTTP_404_NOT_FOUND)
  | Some _ =>
      modify (set_db (Table.remove item_id d));;
      _delete_cache (key_id item_id);;
      _invalidate_all_cache;;
      mret RNone
  end.

(** The loop of [delete_items] over the session: [sess] is the table as
    the transaction has written it and [pending] are the keys of the
    objects marked as deleted since.  [session.delete] only marks: the
    object stays in the identity map until the next flush, and
    [session.get] of its key returns it again without a query, so an id
    that repeats the entry before it is found, and counted, again.
    [session.get] of any other key flushes first (autoflush), which issues
    the pending DELETEs, and then queries. *)
Fixpoint delete_loop (ids : list Z) (sess : list item) (pending : list Z)
    (deleted_count : Z) : M (list item * list Z * Z) :=
  match ids with
  | [] => mret (sess, pending, deleted_count)
  | item_id :: rest =>
      if bool_decide (item_id ∈ pending)
      then
        _delete_cache (key_id item_id);;
        delete_loop rest sess pending (deleted_count + 1)
      else
        let sess' := Table.flush_deleted pending sess in
        match Table.get item_id sess' with
        | Some _ =>
            _delete_cache (key_id item_id);;
            delete_loop rest sess' [item_id] (deleted_count + 1)
        | None =>
            logger_warning (not_found_msg (Py.str_of_int item_id));;
            delete_loop rest sess' [] deleted_count
        end
  end.

Definition delete_items (ids : list Z) : M response :=
  match ids with
  | [] => raise (HTTPException HTTP_400_BAD_REQUEST)
  | _ =>
      d ← gets db;
      '(sess, pending, deleted_count) ← delete_loop ids d [] 0;
      modify (set_db (Table.flush_deleted pending sess));;
      _invalidate_all_cache;;
      logger_info (deleted_msg deleted_count (Z.of_nat (length ids)));;
      mret RNone
  end.

End Router.

(** ** Sample data

    A [User] model with a name and an e-mail address, mounted as [user],
    on an engine that compares as SQLite does. *)

Module Sample.

(** The integer a string is compared as by a column of integers, if it
    reads as one. *)
Definition int_of (s : string) : option Z :=
  Z.of_int <$> NilZero.int_of_string s.

(** The engine: a string that reads as an integer, and a boolean, equal
    that integer in an integer column; text equals text; [NULL] equals
    nothing.  The table declares [name] as NOT NULL. *)
Definition engine : Engine := {|
  pk_of v :=
    match v with
    | VStr s => int_of s
    | VBool b => Some (Z.b2z b)
    | VInt i => Some i
    | VNone => None
    end;
  sql_eq v s :=
    match v with
    | VStr t => String.eqb t s
    | VInt n => bool_decide (int_of s = Some n)
    | VBool b => bool_decide (int_of s = Some (Z.b2z b))
    | VNone => false
    end;
  accepts _ d' := forallb (λ r : item, bool_decide (r !! "name" ≠ Some VNone)) d'
|}.

(** The same engine on a table that declares no constraint. *)
Definition lax : Engine := {|
  pk_of := pk_of engine;
  sql_eq := sql_eq engine;
  accepts _ _ := true
|}.

(** The attributes of a [User] besides its fields that the examples
    name. *)
Definition non_field (key : string) : option failure :=
  if String.eqb key "model_dump" then Some ValueError
  else if String.eqb key "model_fields" then Some ValueError
  else if String.eqb key "__class__" then Some TypeError
  else None.

Definition ann : item :=
  {["id" := VInt 1; "name" := VStr "ann"; "email" := VStr "ann@x.com"]}.

Definition bob : item :=
  {["id" := VInt 2; "name" := VStr "bob"; "email" := VStr "bob@x.com"]}.

(** [bob] as a request submits him: without an id. *)
Definition bob_new : item :=
  {["name" := VStr "bob"; "email" := VStr "bob@x.com"]}.

(** An empty table, empty stores, the clock at 0. *)
Definition w_empty : world := World [] ∅ ∅ 0 [].

(** The same with [ann] in the table. *)
Definition w_ann : world := World [ann] ∅ ∅ 0 [].

Definition w_ann_bob : world := World [ann; bob] ∅ ∅ 0 [].

(** [w_ann] after the three reads have filled the cache under a ttl of
    60 s. *)
Definition warm_cache : gmap string (stored cval) :=
  {["user_1" := Stored (CItem ann) (Some 60);
    "user_all_0_100" := Stored (CList [ann]) (Some 60);
    "user_count" := Stored (CInt 1) (Some 60)]}.

Definition w_warm : world := World [ann] warm_cache ∅ 0 [].

(** [ann] and [bob] in the table, and a live snapshot of [ann] in the
    cache. *)
Definition w_cached : world :=
  World [ann; bob] {["user_1" := Stored (CItem ann) (Some 60)]} ∅ 0 [].

(** A bulk-update entry for [ann]: a new name, and a key that is no
    attribute of the model. *)
Definition rename_ann : dict :=
  [("id", VInt 1); ("name", VStr "anna"); ("role", VStr "admin")].

(** The same with the id as a string, and one that names a method. *)
Definition rename_ann_str : dict :=
  [("id", VStr "1"); ("name", VStr "anna")].

Definition dump_ann : dict :=
  [("id", VInt 1); ("name", VStr "anna"); ("model_dump", VStr "x")].

(** An entry that clears [ann]'s name, which the table does not allow. *)
Definition unname_ann : dict :=
  [("id", VInt 1); ("name", VNone)].

Definition anna : item :=
  {["id" := VInt 1; "name" := VStr "anna"; "email" := VStr "ann@x.com"]}.

(** Login forms: [ann]'s address, one nobody has, and [ann]'s id. *)
Definition form_ann (f : string) : string := "ann@x.com".
Definition form_nobody (f : string) : string := "nobody@x.com".
Definition form_one (f : string) : string := "1".

End Sample.

(** ** Router construction and dispatch

    [crud_router] creates its semaphore, validates the login configuration
    and registers its handlers on an [APIRouter] in the order of the
    decorators in the source. *)

Inductive handler :=
| LOGIN_ROUTE | LOGOUT_ROUTE
| CREATE_ITEM | CREATE_ITEMS
| READ_ITEMS | COUNT_ITEMS | READ_ITEM
| UPDATE_ITEM | UPDATE_ITEMS
| DELETE_ITEM | DELETE_ITEMS.

Inductive method := GET | POST | PATCH | DELETE.

#[global] Instance method_eq_dec : EqDecision method.
Proof. solve_decision. Defined.

#[global] Instance handler_eq_dec : EqDecision handler.
Proof. solve_decision. Defined.

(** The path templates the source uses: ["/"], ["/word"] and
    ["/{item_id}"]. *)
Inductive template :=
| Root
| Word (segment : string)
| Param.

Record route := Route {
  r_method : method;
  r_template : template;
  r_handler : handler
}.

(** [router.post("/login")] and [router.post("/logout")] *)
Definition login_routes : list route :=
  [ Route POST (Word "login") LOGIN_ROUTE;
    Route POST (Word "logout") LOGOUT_ROUTE ].

(** The CRUD decorators, top to bottom. *)
Definition crud_routes : list route :=
  [ Route POST Root CREATE_ITEM;
    Route POST (Word "bulk") CREATE_ITEMS;
    Route GET Root READ_ITEMS;
    Route GET (Word "count") COUNT_ITEMS;
    Route GET Param READ_ITEM;
    Route PATCH Param UPDATE_ITEM;
    Route PATCH (Word "bulk") UPDATE_ITEMS;
    Route DELETE Param DELETE_ITEM;
    Route DELETE (Word "bulk") DELETE_ITEMS ].

(** [Semaphore(value)]: the constructor compares [value] with 0, which
    raises [TypeError] for [None], and raises [ValueError] for a negative
    value. *)
Definition Semaphore (value : option Z) : failure + Z :=
  match value with
  | None => inl TypeError
  | Some v => if v <? 0 then inl ValueError else inr v
  end.

(** [max_concurrent or cpu_count()], [cpu_count] being what
    [os.cpu_count()] returns on the host: a number, or [None] when it
    cannot tell. *)
Definition capacity (max_concurrent cpu_count : option Z) : option Z :=
  if truthy max_concurrent then max_concurrent else cpu_count.

(** [crud_router]: what is mounted, or the exception raised while the
    router is built.  The semaphore is created first, whatever [login] is;
    the login configuration is validated after it.  [model_fields] are the
    keys of [model.__fields__]; [login_fields] is [None] or a list. *)
Definition crud_router (model_fields : list string)
    (max_concurrent cpu_count : option Z) (login : bool)
    (login_fields : option (list string)) : failure + list route :=
  match Semaphore (capacity max_concurrent cpu_count) with
  | inl e => inl e
  | inr _ =>
      if login then
        match login_fields with
        | None | Some [] => inl ValueError
        | Some fields =>
            if forallb (λ field, bool_decide (field ∈ model_fields)) fields
            then inr login_routes
            else inl ValueError
        end
      else inr crud_routes
  end.

(** A path parameter matches one non-empty segment without a slash. *)
Fixpoint no_slash (s : string) : bool :=
  match s with
  | EmptyString => true
  | String c s' => negb (Ascii.eqb c "/") && no_slash s'
  end.

Definition template_matches (t : template) (path : string) : bool :=
  match t with
  | Root => String.eqb path "/"
  | Word segment => String.eqb path ("/" +:+ segment)
  | Param =>
      match path with
      | String c rest =>
          Ascii.eqb c "/" && negb (String.eqb rest "") && no_slash rest
      | EmptyString => false
      end
  end.

(** The router tries its routes in registration order and hands the
    request to the first whose template and method both match. *)
Definition dispatch (routes : list route) (m : method) (path : string)
    : option handler :=
  r_handler <$> List.find (λ r,
    bool_decide (r_method r = m) && template_matches (r_template r) path) routes.

(** ** Tokens *)

Definition is_hex_digit (c : ascii) : bool :=
  let n := nat_of_ascii c in
  ((48 <=? n)%nat && (n <=? 57)%nat) || ((97 <=? n)%nat && (n <=? 102)%nat).

(** The shape of what [secrets.token_hex] returns: lower-case hexadecimal
    digits. *)
Fixpoint all_hex (s : string) : bool :=
  match s with
  | EmptyString => true
  | String c s' => is_hex_digit c && all_hex s'
  end.

(** ** Coherence of the single-entity cache entries *)

(** Every entry cached under the key of an id that satisfies [P] is a
    snapshot of the row the table holds under that id. *)
Definition coherent_on (P : stored cval → Prop) (model_name : string)
    (w : world) : Prop :=
  ∀ i e, cache w !! key_id model_name i = Some e → P e →
    ∃ it, s_val e = CItem it ∧ Table.get i (db w) = Some it.

(** The same of the entries that are live, which are those a read can be
    served from. *)
Definition coherent (model_name : string) (w : world) : Prop :=
  coherent_on (λ e, Disk.alive (now w) e = true) model_name w.

(** ** The rows a bulk update can reach

    The keys that the id of a bulk-update entry can make [session.get]
    look up: the key the value denotes to the engine, and for a boolean
    the integer Python takes it for. *)
Definition names (engine : Engine) (data : dict) (j : Z) : Prop :=
  Dict.get data "id" ≫= Table.key_of_value engine = Some j
  ∨ ∃ b, Dict.get data "id" = Some (VBool b) ∧ j = Z.b2z b.

(** The id of an entry finds no row of a table: neither through the
    engine nor, for a boolean, under the integer Python takes it for. *)
Definition finds_nothing (engine : Engine) (data : dict) (d : list item) : Prop :=
  Table.get_pk engine (Dict.get data "id") d = None
  ∧ ∀ b, Dict.get data "id" = Some (VBool b) → Table.get (Z.b2z b) d = None.

(** ** The count a bulk delete logs

    How many entries of an id list find a row, told from the list and the
    table alone: an entry does when the table holds its id and the id
    either has not occurred earlier in the list ([seen]) or repeats the
    entry just before it, which found it ([prev]). *)
Fixpoint entries_found (d : list item) (seen : list Z) (prev : option Z)
    (ids : list Z) : nat :=
  match ids with
  | [] => 0%nat
  | i :: rest =>
      if bool_decide (is_Some (Table.get i d))
         && (bool_decide (i ∉ seen) || bool_decide (prev = Some i))
      then S (entries_found d (i :: seen) (Some i) rest)
      else entries_found d (i :: seen) None rest
  end.

(** ** Sequences of requests

    The CRUD requests a client can send, and the passing of time between
    them. *)

Inductive request :=
| Create (it : item)
| CreateBulk (items : list item)
| ListPage (skip limit : Z)
| Count
| Read (item_id : Z)
| Update (item_id : Z) (update_data : item)
| UpdateBulk (items_data : list dict)
| Delete (item_id : Z)
| DeleteBulk (ids : list Z)
| Wait (seconds : Z).

(** The world after the router has served one request.  A request that
    raises leaves whatever its handler had written. *)
Definition serve (engine : Engine) (model_name : string)
    (non_field : string → option failure) (ttl : option Z) (req : request)
    (w : world) : world :=
  match req with
  | Create it => snd (create_item model_name ttl it w)
  | CreateBulk items => snd (create_items model_name ttl items w)
  | ListPage skip limit => snd (read_items model_name ttl skip limit w)
  | Count => snd (count_items model_name ttl w)
  | Read item_id => snd (read_item model_name ttl item_id w)
  | Update item_id update_data => snd (update_item model_name ttl item_id update_data w)
  | UpdateBulk items_data =>
      snd (update_items engine model_name non_field ttl items_data w)
  | Delete item_id => snd (delete_item model_name item_id w)
  | DeleteBulk ids => snd (delete_items model_name ids w)
  | Wait seconds => set_now (now w + seconds) w
  end.

Definition serve_all (engine : Engine) (model_name : string)
    (non_field : string → option failure) (ttl : option Z) (reqs : list request)
    (w : world) : world :=
  fold_left (λ w req, serve engine model_name non_field ttl req w) reqs w.

(** An update request that does not set [id] to anything but the id it
    addresses; any other request. *)
Definition keeps_key (req : request) : Prop :=
  match req with
  | Update item_id update_data =>
      ∀ v, update_data !! "id" = Some v → v = VInt item_id
  | _ => True
  end.

(** * Facts *)

(** ** Strings and cache keys *)

#[local] Arguments String.append !_ _.

Module PyFacts.

Lemma append_inj_l (p a b : string) : p +:+ a = p +:+ b → a = b.
Proof.
  induction p as [|c p IH]; simpl; [done|].
  intros H. injection H as H. by apply IH.
Qed.

Lemma append_assoc (a b c : string) : (a +:+ b) +:+ c = a +:+ b +:+ c.
Proof. induction a as [|x a IH]; simpl; [done|]. by rewrite IH. Qed.

Lemma length_append (a b : string) :
  String.length (a +:+ b) = (String.length a + String.length b)%nat.
Proof. induction a as [|x a IH]; simpl; [done|]. by rewrite IH. Qed.

(** [prefix] decides whether a string starts with another. *)
Lemma prefix_spec (p s : string) :
  String.prefix p s = true ↔ ∃ b, s = p +:+ b.
Proof.
  revert s. induction p as [|c p IH]; intros s.
  - split; [intros _; by exists s | by destruct s].
  - destruct s as [|c' s]; simpl.
    + split; [done | intros [b Hb]; discriminate].
    + destruct (Ascii.ascii_dec c c') as [->|Hne].
      * rewrite IH. split; intros [b Hb]; exists b; [by rewrite Hb | by injection Hb].
      * split; [done | intros [b Hb]; injection Hb as Hc _; congruence].
Qed.

(** A printed integer parses back, so no word that fails to parse is ever
    printed. *)
Lemma str_of_int_parses (z : Z) :
  NilZero.int_of_string (Py.str_of_int z) = Some (Z.to_int z).
Proof.
  unfold Py.str_of_int. apply NilZero.isi.
  - destruct z; simpl; [done| |done]; intros [= H]; by apply Unsigned.to_uint_nonnil in H.
  - destruct z; simpl; [done|done|]; intros [= H]; by apply Unsigned.to_uint_nonnil in H.
Qed.

Lemma str_of_int_inj (a b : Z) : Py.str_of_int a = Py.str_of_int b → a = b.
Proof.
  intros H. pose proof (str_of_int_parses a) as Ha.
  rewrite H, str_of_int_parses in Ha. injection Ha as Ha.
  by rewrite <- (DecimalZ.of_to a), <- (DecimalZ.of_to b), Ha.
Qed.

Lemma str_of_int_not_word (z : Z) (s : string) :
  NilZero.int_of_string s = None → Py.str_of_int z ≠ s.
Proof. intros Hs H. rewrite <- H, str_of_int_parses in Hs. discriminate. Qed.

(** No integer prints as a word that starts with [a]. *)
Lemma int_of_string_a (s : string) : NilZero.int_of_string (String "a" s) = None.
Proof.
  unfold NilZero.int_of_string, NilZero.uint_of_string. simpl.
  by destruct (NilEmpty.uint_of_string s).
Qed.

(** *** [s.replace(old, "")] *)

Lemma remove_go_0 (old : string) (c : ascii) (s : string) :
  Py.remove_go old 0 (String c s) =
  if String.prefix old (String c s)
  then Py.remove_go old (Nat.pred (String.length old)) s
  else String c (Py.remove_go old 0 s).
Proof. reflexivity. Qed.

Lemma remove_go_length (old : string) (k : nat) (s : string) :
  (String.length (Py.remove_go old k s) ≤ String.length s)%nat.
Proof.
  revert k. induction s as [|c s IH]; intros k; [simpl; lia|].
  destruct k as [|k].
  - rewrite remove_go_0. destruct (String.prefix old (String c s)); simpl.
    + specialize (IH (Nat.pred (String.length old))). lia.
    + specialize (IH 0%nat). lia.
  - simpl. specialize (IH k). lia.
Qed.

Lemma occurs_cons (old : string) (c : ascii) (s : string) :
  Py.occurs old (String c s) →
  String.prefix old (String c s) = true ∨ Py.occurs old s.
Proof.
  intros (a & b & H). destruct a as [|c' a]; simpl in H.
  - left. apply prefix_spec. by exists b.
  - right. injection H as _ H. by exists a, b.
Qed.

Lemma occurs_tail (old : string) (c : ascii) (s : string) :
  Py.occurs old s → Py.occurs old (String c s).
Proof. intros (a & b & ->). by exists (String c a), b. Qed.

(** Removal shortens a string in which the word occurs … *)
Lemma remove_go_shorter (old : string) (s : string) :
  Py.occurs old s → old ≠ EmptyString →
  (String.length (Py.remove_go old 0 s) < String.length s)%nat.
Proof.
  intros Hocc Hold. induction s as [|c s IH].
  - destruct Hocc as (a & b & H). destruct a; [|discriminate].
    destruct old; [done | discriminate].
  - rewrite remove_go_0. destruct (String.prefix old (String c s)) eqn:Hp.
    + pose proof (remove_go_length old (Nat.pred (String.length old)) s). simpl. lia.
    + apply occurs_cons in Hocc as [Hocc|Hocc]; [congruence|].
      simpl. specialize (IH Hocc). lia.
Qed.

(** … and leaves any other string alone. *)
Lemma remove_go_id (old : string) (s : string) :
  ¬ Py.occurs old s → Py.remove_go old 0 s = s.
Proof.
  induction s as [|c s IH]; intros Hno; [done|].
  rewrite remove_go_0. destruct (String.prefix old (String c s)) eqn:Hp.
  - exfalso. apply Hno. apply prefix_spec in Hp as [b Hb].
    exists EmptyString, b. by rewrite Hb.
  - f_equal. apply IH. intros Hocc. by apply Hno, occurs_tail.
Qed.

(** The leading [Bearer ] goes, and the scan carries on through the rest. *)
Lemma startswith_bearer (r : string) :
  Py.startswith "Bearer " ("Bearer " +:+ r) = true.
Proof. apply prefix_spec. by exists r. Qed.

Lemma remove_bearer_prefix (r : string) :
  Py.remove "Bearer " ("Bearer " +:+ r) = Py.remove "Bearer " r.
Proof.
  change (Py.remove "Bearer " ("Bearer " +:+ r))
    with (Py.remove_go "Bearer " 0 (String "B" ("earer " +:+ r))).
  rewrite remove_go_0.
  change (String "B" ("earer " +:+ r)) with ("Bearer " +:+ r) at 1.
  pose proof (startswith_bearer r) as Hp. unfold Py.startswith in Hp.
  by rewrite Hp.
Qed.

End PyFacts.

(** ** The table *)

Module TableFacts.

Lemma has_id_true (i : Z) (r : item) :
  Table.has_id i r = true ↔ r !! "id" = Some (VInt i).
Proof. unfold Table.has_id. by rewrite bool_decide_eq_true. Qed.

Lemma has_id_unique (i j : Z) (r : item) :
  Table.has_id i r = true → Table.has_id j r = true → i = j.
Proof. rewrite !has_id_true. congruence. Qed.

Lemma get_Some (i : Z) (d : list item) (r : item) :
  Table.get i d = Some r → r ∈ d ∧ r !! "id" = Some (VInt i).
Proof.
  intros H. apply List.find_some in H as [Hin Hid].
  split; [by apply list_elem_of_In | by apply has_id_true].
Qed.

Lemma get_None (i : Z) (d : list item) :
  Table.get i d = None ↔ ∀ r, r ∈ d → r !! "id" ≠ Some (VInt i).
Proof.
  unfold Table.get. induction d as [|r d IH]; simpl.
  - split; [intros _ r Hr; by apply elem_of_nil in Hr | done].
  - destruct (Table.has_id i r) eqn:Hr.
    + split; [done|]. intros H. apply has_id_true in Hr.
      by destruct (H r (list_elem_of_here _ _)).
    + rewrite IH. split.
      * intros H r' [->|Hr']%elem_of_cons; [|by apply H].
        intros Hid%has_id_true. congruence.
      * intros H r' Hr'. apply H. by right.
Qed.

Lemma get_app (i : Z) (d : list item) (r : item) :
  Table.get i (d ++ [r]) =
  match Table.get i d with
  | Some x => Some x
  | None => if Table.has_id i r then Some r else None
  end.
Proof.
  unfold Table.get. induction d as [|x d IH]; simpl; [done|].
  by destruct (Table.has_id i x).
Qed.

(** Deleting a key hides it and nothing else. *)
Lemma get_remove (i j : Z) (d : list item) :
  Table.get i (Table.remove j d) =
  if bool_decide (i = j) then None else Table.get i d.
Proof.
  unfold Table.get, Table.remove. induction d as [|r d IH]; simpl.
  - by case_bool_decide.
  - destruct (Table.has_id j r) eqn:Hj; simpl.
    + rewrite IH. case_bool_decide as Hij; [done|].
      destruct (Table.has_id i r) eqn:Hi; [|done].
      by destruct Hij; apply (has_id_unique _ _ r).
    + destruct (Table.has_id i r) eqn:Hi; [|done].
      case_bool_decide as Hij; [congruence | done].
Qed.

(** Rewriting a row whose key stays [i]. *)
Lemma get_replace_same (i : Z) (it : item) (d : list item) :
  is_Some (Table.get i d) → it !! "id" = Some (VInt i) →
  Table.get i (Table.replace i it d) = Some it.
Proof.
  unfold Table.get. intros [old H] Hid. induction d as [|r d IH]; simpl in *; [done|].
  destruct (Table.has_id i r) eqn:Hr; simpl.
  - by rewrite (proj2 (has_id_true i it) Hid).
  - rewrite Hr. by apply IH.
Qed.

(** Rewriting a row leaves the rows with other keys alone, provided the
    rewritten row does not take their key. *)
Lemma get_replace_other (i j : Z) (it : item) (d : list item) :
  j ≠ i → it !! "id" ≠ Some (VInt j) →
  Table.get j (Table.replace i it d) = Table.get j d.
Proof.
  unfold Table.get. intros Hji Hid. induction d as [|r d IH]; simpl; [done|].
  destruct (Table.has_id i r) eqn:Hr; simpl.
  - destruct (Table.has_id j it) eqn:Hit; [by apply has_id_true in Hit|].
    destruct (Table.has_id j r) eqn:Hjr; [|done].
    by destruct Hji; apply (has_id_unique _ _ r).
  - by rewrite IH.
Qed.

Lemma fold_max_ge (i : Z) (l : list Z) (j : Z) :
  j = i ∨ j ∈ l → j ≤ fold_right Z.max i l.
Proof.
  induction l as [|x l IH]; simpl.
  - intros [->|H]; [lia | by apply elem_of_nil in H].
  - intros [->|[->|H]%elem_of_cons]; [|lia|].
    + specialize (IH (or_introl eq_refl)). lia.
    + specialize (IH (or_intror H)). lia.
Qed.

(** The key handed out by the auto-increment is in use by no row. *)
Lemma next_id_fresh (d : list item) : Table.get (Table.next_id d) d = None.
Proof.
  apply get_None. intros r Hr Hid.
  assert (Table.next_id d ∈ omap Table.row_id d) as Hin.
  { apply list_elem_of_omap. exists r. split; [done|].
    unfold Table.row_id. by rewrite Hid. }
  unfold Table.next_id in *. destruct (omap Table.row_id d) as [|i l].
  - by apply elem_of_nil in Hin.
  - apply elem_of_cons in Hin.
    pose proof (fold_max_ge i l _ Hin). lia.
Qed.

(** A successful insert appends the row under a key that was free: the
    key the request carried, if any; the row is the submitted one with
    that key as its [id]. *)
Lemma insert_Some (it it' : item) (d d' : list item) :
  Table.insert it d = Some (it', d') →
  ∃ i, it' = <["id" := VInt i]> it ∧ Table.get i d = None ∧ d' = d ++ [it']
       ∧ ∀ j, it !! "id" = Some (VInt j) → j = i.
Proof.
  unfold Table.insert. intros H.
  destruct (it !! "id") as [v|] eqn:Hid; [destruct v as [|b|i|s]|]; try done.
  - injection H as <- <-. exists (Table.next_id d). by rewrite next_id_fresh.
  - destruct (Table.get i d) eqn:Hg; [done|]. injection H as <- <-.
    exists i. rewrite insert_id by done. repeat split; [done|]. by intros j [= ->].
  - injection H as <- <-. exists (Table.next_id d). by rewrite next_id_fresh.
Qed.

Lemma get_after_insert (i : Z) (it : item) (d : list item) :
  Table.get i d = None →
  Table.get i (d ++ [<["id" := VInt i]> it]) = Some (<["id" := VInt i]> it).
Proof.
  intros H. rewrite get_app, H.
  by rewrite (proj2 (has_id_true i _) (lookup_insert_eq _ _ _)).
Qed.

(** After a flush of pending deletions the keys that were pending find
    nothing and the others find what they found. *)
Lemma get_flush_deleted (j : Z) (pending : list Z) (d : list item) :
  Table.get j (Table.flush_deleted pending d)
  = if bool_decide (j ∈ pending) then None else Table.get j d.
Proof.
  induction pending as [|i pending IH]; simpl; [done|].
  rewrite get_remove, IH.
  destruct (decide (j = i)) as [->|Hne].
  - rewrite !bool_decide_eq_true_2; [done | left | done].
  - rewrite (bool_decide_eq_false_2 (j = i)) by done.
    rewrite (bool_decide_ext (j ∈ i :: pending) (j ∈ pending)); [done|].
    rewrite elem_of_cons. split; [by intros [?|?] | auto].
Qed.

End TableFacts.

(** ** The handlers *)

(** Unfolds the monad's plumbing so that a handler's run can be computed. *)
Ltac run :=
  unfold mbind, M_bind, mret, M_ret, gets, modify, raise,
         logger_warning, logger_info; simpl.

Section RouterFacts.

Variable engine : Engine.
Variable model_name : string.
Variable non_field : string → option failure.
Variable ttl : option Z.
Variable login_fields : list string.
Variable login_ttl : Z.

(** *** The key spaces are disjoint *)

Lemma key_id_ne_count (i : Z) : key_id model_name i ≠ key_count model_name.
Proof.
  unfold key_id, key_count. intros H%PyFacts.append_inj_l.
  simpl in H. injection H as H. by apply (PyFacts.str_of_int_not_word i "count") in H.
Qed.

Lemma key_id_ne_all (i : Z) : key_id model_name i ≠ key_all model_name.
Proof.
  unfold key_id, key_all. intros H%PyFacts.append_inj_l.
  simpl in H. injection H as H. by apply (PyFacts.str_of_int_not_word i "all") in H.
Qed.

Lemma key_id_ne_page (i skip limit : Z) : key_id model_name i ≠ key_page model_name skip limit.
Proof.
  unfold key_id, key_page. intros H%PyFacts.append_inj_l.
  simpl in H. injection H as H.
  by apply PyFacts.str_of_int_not_word in H; [|apply PyFacts.int_of_string_a].
Qed.

Lemma key_page_ne_all (skip limit : Z) : key_page model_name skip limit ≠ key_all model_name.
Proof.
  unfold key_page, key_all. intros H%PyFacts.append_inj_l.
  simpl in H. discriminate.
Qed.

Lemma key_page_ne_count (skip limit : Z) : key_page model_name skip limit ≠ key_count model_name.
Proof.
  unfold key_page, key_count. intros H%PyFacts.append_inj_l.
  simpl in H. discriminate.
Qed.

Lemma key_id_inj (i j : Z) : key_id model_name i = key_id model_name j → i = j.
Proof.
  unfold key_id. intros H%PyFacts.append_inj_l.
  simpl in H. injection H as H. by apply PyFacts.str_of_int_inj.
Qed.

Lemma key_of_id (it : item) (i : Z) :
  it !! "id" = Some (VInt i) → key_of model_name it = key_id model_name i.
Proof. intros H. unfold key_of, key_id, getattr. by rewrite H. Qed.



(** *** Reading through the cache *)

Lemma disk_get_absent {A} (t : Z) (k : string) (s : gmap string (stored A)) :
  s !! k = None → Disk.get t k s = None.
Proof. unfold Disk.get. by intros ->. Qed.

Lemma read_item_hit (i : Z) (w : world) (v : cval) :
  Disk.get (now w) (key_id model_name i) (cache w) = Some v →
  read_item model_name ttl i w = (Ok (RBody v), w).
Proof. intros H. unfold read_item, _get_cache. run. by rewrite H. Qed.

Lemma read_item_miss_absent (i : Z) (w : world) :
  Disk.get (now w) (key_id model_name i) (cache w) = None →
  Table.get i (db w) = None →
  read_item model_name ttl i w = (Raise (HTTPException HTTP_404_NOT_FOUND), w).
Proof. intros H Hd. unfold read_item, _get_cache. run. by rewrite H, Hd. Qed.

Lemma read_item_miss_found (i : Z) (w : world) (it : item) :
  Disk.get (now w) (key_id model_name i) (cache w) = None →
  Table.get i (db w) = Some it →
  fst (read_item model_name ttl i w) = Ok (RBody (CItem it)).
Proof. intros H Hd. unfold read_item, _get_cache. run. by rewrite H, Hd. Qed.

(** Whatever the clock shows, a read of [i] returns [it] as long as the
    table holds [it] under [i] and the cache holds either nothing or a
    snapshot of [it] there. *)
Lemma read_item_coherent (i : Z) (w : world) (it : item) :
  Table.get i (db w) = Some it →
  (∀ e, cache w !! key_id model_name i = Some e → s_val e = CItem it) →
  fst (read_item model_name ttl i w) = Ok (RBody (CItem it)).
Proof.
  intros Hd Hc.
  destruct (Disk.get (now w) (key_id model_name i) (cache w)) as [v|] eqn:Hg.
  - rewrite (read_item_hit _ _ _ Hg). simpl. unfold Disk.get in Hg.
    destruct (cache w !! key_id model_name i) as [e|] eqn:He; [|done].
    destruct (Disk.alive (now w) e); [|done]. injection Hg as <-.
    by rewrite (Hc e eq_refl).
  - by apply read_item_miss_found.
Qed.

(** *** C4: delete, then read *)

(** C4.  Deleting a stored id succeeds; from then on the cache holds no
    entry under the id's key and, at any later time, reading the id raises
    not-found. *)
Theorem delete_item_then_read (i : Z) (w : world) :
  is_Some (Table.get i (db w)) →
  ∃ w', delete_item model_name i w = (Ok RNone, w')
        ∧ cache w' !! key_id model_name i = None
        ∧ ∀ t, read_item model_name ttl i (set_now t w')
               = (Raise (HTTPException HTTP_404_NOT_FOUND), set_now t w').
Proof.
  intros [it Hit]. unfold delete_item, _invalidate_all_cache, _delete_cache. run.
  rewrite Hit. eexists. split; [reflexivity|].
  assert (delete (key_count model_name) (delete (key_all model_name)
            (delete (key_id model_name i) (cache w))) !! key_id model_name i = None) as Hc.
  { rewrite !lookup_delete_None. auto. }
  split; [exact Hc|]. intros t. apply read_item_miss_absent; simpl.
  - by apply disk_get_absent.
  - rewrite TableFacts.get_remove. by rewrite bool_decide_eq_true_2.
Qed.



(** *** C2: create, then read *)

(** What [_set_cache] leaves under the key it wrote. *)
Lemma set_cache_lookup (k : string) (v : cval) (b : bool) (w : world) :
  ∃ x, cache (snd (_set_cache ttl k v b w)) !! k = Some (Stored v x).
Proof.
  unfold _set_cache, Disk.set. run.
  destruct (b && truthy ttl); simpl; eexists; apply lookup_insert_eq.
Qed.

(** C2.  When [create_item] succeeds it returns the submitted entity with
    its id set to the assigned key [i] (the submitted id, when the request
    carried one), and a later [read_item i] returns that same entity at any
    time: from the snapshot cached by the create while it is alive, from
    the table once it has expired. *)
Theorem create_item_then_read (it : item) (w : world) (r : response) (w' : world) :
  create_item model_name ttl it w = (Ok r, w') →
  ∃ i, r = RBody (CItem (<["id" := VInt i]> it))
       ∧ (∀ j, it !! "id" = Some (VInt j) → j = i)
       ∧ (∀ f, f ≠ "id" → (<["id" := VInt i]> it) !! f = it !! f)
       ∧ Table.get i (db w') = Some (<["id" := VInt i]> it)
       ∧ ∀ t, fst (read_item model_name ttl i (set_now t w')) = Ok r.
Proof.
  unfold create_item. run.
  destruct (Table.insert it (db w)) as [[it' d']|] eqn:Hins; [|done].
  destruct (TableFacts.insert_Some _ _ _ _ Hins) as (i & -> & Hfree & -> & Hreq).
  set (e := <["id" := VInt i]> it). intros H.
  assert (e !! "id" = Some (VInt i)) as Hid by apply lookup_insert_eq.
  exists i. rewrite (key_of_id e i Hid) in H.
  destruct (set_cache_lookup (key_id model_name i) (CItem e) true
    (snd (_delete_cache (key_id model_name i)
      (snd (_invalidate_all_cache model_name (set_db (db w ++ [e]) w))))))
    as [x Hx].
  revert H Hx. unfold _invalidate_all_cache, _delete_cache, _set_cache. run.
  intros H Hx.
  assert (r = RBody (CItem e) ∧ db w' = db w ++ [e]
          ∧ cache w' !! key_id model_name i = Some (Stored (CItem e) x)) as (-> & Hdb & Hc).
  { destruct (truthy ttl); simpl in *; injection H as <- <-; simpl; auto. }
  split; [done|]. split; [done|].
  split; [intros f Hf; by apply lookup_insert_ne|].
  assert (Table.get i (db w') = Some e) as Hget.
  { rewrite Hdb. by apply TableFacts.get_after_insert. }
  split; [done|]. intros t.
  apply read_item_coherent; simpl; [done|].
  intros e' He'. rewrite Hc in He'. by injection He' as <-.
Qed.



(** *** C3: update, then read *)

(** The fields the request set take the request's values, the others keep
    theirs. *)
Lemma apply_update_lookup (update_data it : item) (k : string) :
  apply_update update_data it !! k =
  match update_data !! k with
  | Some v => Some v
  | None => it !! k
  end.
Proof.
  unfold apply_update. revert k.
  apply (map_fold_weak_ind (λ r m, ∀ k, r !! k =
           match m !! k with Some v => Some v | None => it !! k end)).
  - intros k. by rewrite lookup_empty.
  - intros i x m r Hi IH k. unfold setattr.
    destruct (decide (i = k)) as [->|Hne].
    + by rewrite !lookup_insert_eq.
    + by rewrite !lookup_insert_ne, IH.
Qed.

(** For a request that leaves the primary key alone, [update_item]
    succeeds on a stored id, stores and returns the merged entity, and a
    later [read_item] of that id returns it at any time. *)
Lemma update_item_then_read (i : Z) (update_data it : item) (w : world) :
  Table.get i (db w) = Some it →
  (∀ v, update_data !! "id" = Some v → v = VInt i) →
  ∃ w', update_item model_name ttl i update_data w
          = (Ok (RBody (CItem (apply_update update_data it))), w')
        ∧ Table.get i (db w') = Some (apply_update update_data it)
        ∧ ∀ t, fst (read_item model_name ttl i (set_now t w'))
               = Ok (RBody (CItem (apply_update update_data it))).
Proof.
  intros Hit Hkeep. set (m := apply_update update_data it).
  assert (m !! "id" = Some (VInt i)) as Hid.
  { unfold m. rewrite apply_update_lookup.
    destruct (update_data !! "id") as [v|] eqn:Hv.
    - by rewrite (Hkeep v eq_refl).
    - by apply TableFacts.get_Some in Hit as [_ ?]. }
  destruct (set_cache_lookup (key_id model_name i) (CItem m) true
    (snd (_invalidate_all_cache model_name
      (snd (_delete_cache (key_id model_name i)
        (set_db (Table.replace i m (db w)) w)))))) as [x Hx].
  revert Hx. unfold update_item, Table.update, _invalidate_all_cache,
    _delete_cache, _set_cache. run.
  rewrite Hit. fold m. rewrite Hid, bool_decide_eq_true_2 by done. simpl.
  intros Hx. eexists. split; [reflexivity|].
  assert (Table.get i (Table.replace i m (db w)) = Some m) as Hget.
  { apply TableFacts.get_replace_same; [by rewrite Hit | done]. }
  destruct (truthy ttl); simpl in *.
  - split; [done|]. intros t. apply read_item_coherent; simpl; [done|].
    intros e He. rewrite Hx in He. by injection He as <-.
  - split; [done|]. intros t. apply read_item_coherent; simpl; [done|].
    intros e He. rewrite Hx in He. by injection He as <-.
Qed.

(** C3, at a request that sets [id].  [PATCH /1] whose body is [ann] with
    [id] 7, on a table holding [ann] under 1, with a ttl of 60 s: the
    handler writes the new key into the row, so the table holds the entity
    under 7 and nothing under 1, while the snapshot is cached under the key
    of 1.  [read_item 1] returns the entity carrying id 7 while that
    snapshot lives, and raises not-found once it has expired. *)
Theorem update_item_rebinds_id :
  let ann7 : item := <["id" := VInt 7]> Sample.ann in
  let out := update_item "user" (Some 60) 1 ann7 Sample.w_ann in
  fst out = Ok (RBody (CItem ann7))
  ∧ db (snd out) = [ann7]
  ∧ Table.get 1 (db (snd out)) = None
  ∧ fst (read_item "user" (Some 60) 1 (set_now 59 (snd out))) = Ok (RBody (CItem ann7))
  ∧ fst (read_item "user" (Some 60) 1 (set_now 60 (snd out)))
    = Raise (HTTPException HTTP_404_NOT_FOUND).
Proof. vm_compute. repeat split. Qed.

(** *** C1: what a write invalidates *)

(** [_invalidate_all_cache] deletes the keys [{model}_all] and
    [{model}_count]; no page is cached under either, so every cached page
    stays. *)
Lemma invalidate_keeps_pages (skip limit : Z) (w : world) :
  cache (snd (_invalidate_all_cache model_name w)) !! key_page model_name skip limit
  = cache w !! key_page model_name skip limit.
Proof.
  unfold _invalidate_all_cache, _delete_cache, Disk.del. run.
  rewrite !lookup_delete_ne; [done | |].
  - intros H. by apply (key_page_ne_all skip limit).
  - intros H. by apply (key_page_ne_count skip limit).
Qed.

Lemma invalidate_drops_count (w : world) :
  cache (snd (_invalidate_all_cache model_name w)) !! key_count model_name = None.
Proof.
  unfold _invalidate_all_cache, _delete_cache, Disk.del. run.
  apply lookup_delete_eq.
Qed.

(** A page cached before [create_item] is still cached, unchanged, after
    it, and the cached count is gone. *)
Lemma create_item_cache (it : item) (w : world) (r : response) (w' : world) :
  create_item model_name ttl it w = (Ok r, w') →
  (∀ skip limit, cache w' !! key_page model_name skip limit
                 = cache w !! key_page model_name skip limit)
  ∧ cache w' !! key_count model_name = None.
Proof.
  unfold create_item. run.
  destruct (Table.insert it (db w)) as [[it' d']|] eqn:Hins; [|done].
  destruct (TableFacts.insert_Some _ _ _ _ Hins) as (i & -> & _ & -> & _).
  rewrite (key_of_id (<["id" := VInt i]> it) i) by apply lookup_insert_eq.
  unfold _invalidate_all_cache, _delete_cache, _set_cache, Disk.set, Disk.del. run.
  intros H.
  assert (∀ k, k ≠ key_id model_name i →
            cache w' !! k
            = delete (key_count model_name) (delete (key_all model_name) (cache w)) !! k)
    as Hc.
  { intros k Hk. destruct (truthy ttl); simpl in H; injection H as _ <-; simpl;
      by rewrite lookup_insert_ne, lookup_delete_ne. }
  split.
  - intros skip limit.
    rewrite Hc by (intros E; by apply (key_id_ne_page i skip limit)).
    rewrite !lookup_delete_ne; [done | |].
    + intros E. by apply (key_page_ne_all skip limit).
    + intros E. by apply (key_page_ne_count skip limit).
  - rewrite Hc by (intros E; by apply (key_id_ne_count i)).
    apply lookup_delete_eq.
Qed.

(** Deleting or writing one key leaves the others as they are. *)
Lemma delete_cache_other (k k' : string) (w : world) :
  k' ≠ k → cache (snd (_delete_cache k w)) !! k' = cache w !! k'.
Proof. intros H. unfold _delete_cache, Disk.del. run. by rewrite lookup_delete_ne. Qed.

Lemma set_cache_other (k k' : string) (v : cval) (b : bool) (w : world) :
  k' ≠ k → cache (snd (_set_cache ttl k v b w)) !! k' = cache w !! k'.
Proof.
  intros H. unfold _set_cache, Disk.set. run.
  destruct (b && truthy ttl); simpl; by rewrite lookup_insert_ne.
Qed.

(** The loop that re-caches a list of refreshed entities leaves every
    cached page as it is. *)
Lemma recache_keeps_pages (skip limit : Z) (l : list item) :
  (∀ it, it ∈ l → ∃ i, it !! "id" = Some (VInt i)) →
  ∀ w, ∃ w',
    for_each l (λ it,
      _delete_cache (key_of model_name it);;
      _set_cache ttl (key_of model_name it) (CItem it) true) w = (Ok tt, w')
    ∧ db w' = db w
    ∧ cache w' !! key_page model_name skip limit
      = cache w !! key_page model_name skip limit.
Proof.
  induction l as [|it l IH]; intros Hids w.
  - exists w. by run.
  - destruct (Hids it (list_elem_of_here _ _)) as [i Hi].
    simpl for_each. rewrite (key_of_id it i Hi).
    set (w1 := snd (_set_cache ttl (key_id model_name i) (CItem it) true
                      (snd (_delete_cache (key_id model_name i) w)))).
    destruct (IH (λ x Hx, Hids x (list_elem_of_further _ _ _ Hx)) w1)
      as (w' & Hrun & Hdb & Hc).
    exists w'. split; [|split].
    + revert Hrun. unfold w1, _delete_cache, _set_cache. run.
      by destruct (truthy ttl).
    + rewrite Hdb. unfold w1, _delete_cache, _set_cache. run. by destruct (truthy ttl).
    + rewrite Hc. unfold w1.
      rewrite set_cache_other, delete_cache_other; [done | |];
        intros E; by apply (key_id_ne_page i skip limit).
Qed.

Lemma insert_all_ids (items items' : list item) (d d' : list item) :
  Table.insert_all items d = Some (items', d') →
  ∀ it, it ∈ items' → ∃ i, it !! "id" = Some (VInt i).
Proof.
  revert items' d d'. induction items as [|x items IH]; intros items' d d' H; simpl in H.
  - injection H as <- <-. intros it Hit. by apply elem_of_nil in Hit.
  - destruct (Table.insert x d) as [[x' d1]|] eqn:Hx; [|done].
    destruct (Table.insert_all items d1) as [[its d2]|] eqn:Hrest; [|done].
    injection H as <- <-. intros it [->|Hit]%elem_of_cons.
    + apply TableFacts.insert_Some in Hx as (i & -> & _). exists i.
      apply lookup_insert_eq.
    + by apply (IH its d1 d2).
Qed.

(** The loop of [update_items] leaves the cache alone, whether it returns
    or raises. *)
Lemma update_loop_cache (items_data : list dict) :
  ∀ (flushed sess : list item) (updated : list Z) (w : world),
    cache (snd (update_loop engine non_field items_data flushed sess updated w))
    = cache w.
Proof.
  induction items_data as [|data rest IH]; intros flushed sess updated w; [done|].
  simpl. unfold session_get.
  destruct (identity (Dict.get data "id") updated) as [i|].
  - run. destruct (Table.get i sess) as [it|]; simpl.
    + destruct (apply_entry non_field data it) as [e|it']; [done|]. apply IH.
    + by rewrite IH.
  - destruct (flushes engine flushed sess); [|done]. run.
    destruct (Table.get_pk engine (Dict.get data "id") sess) as [[i it]|].
    + destruct (apply_entry non_field data it) as [e|it']; [done|]. apply IH.
    + by rewrite IH.
Qed.

Lemma delete_loop_keeps_pages (skip limit : Z) (ids : list Z) :
  ∀ (sess : list item) (pending : list Z) (c : Z) (w : world),
    cache (snd (delete_loop model_name ids sess pending c w))
      !! key_page model_name skip limit
    = cache w !! key_page model_name skip limit.
Proof.
  assert (∀ i w, delete (key_id model_name i) (cache w) !! key_page model_name skip limit
                 = cache w !! key_page model_name skip limit) as Hdel.
  { intros i w. rewrite lookup_delete_ne; [done|].
    intros E. by apply (key_id_ne_page i skip limit). }
  induction ids as [|i ids IH]; intros sess pending c w; simpl; [done|].
  destruct (bool_decide (i ∈ pending)).
  - unfold _delete_cache at 1. run. rewrite IH. simpl. apply Hdel.
  - destruct (Table.get i (Table.flush_deleted pending sess)).
    + unfold _delete_cache at 1. run. rewrite IH. simpl. apply Hdel.
    + run. by rewrite IH.
Qed.

(** Every write leaves every cached page as it was, and leaves no cached
    count. *)
Lemma writes_keep_pages (skip limit : Z) (w w' : world) (r : response) :
  (∃ it, create_item model_name ttl it w = (Ok r, w'))
  ∨ (∃ items, create_items model_name ttl items w = (Ok r, w'))
  ∨ (∃ i data, update_item model_name ttl i data w = (Ok r, w'))
  ∨ (∃ items_data,
       update_items engine model_name non_field ttl items_data w = (Ok r, w'))
  ∨ (∃ i, delete_item model_name i w = (Ok r, w'))
  ∨ (∃ ids, delete_items model_name ids w = (Ok r, w')) →
  cache w' !! key_page model_name skip limit = cache w !! key_page model_name skip limit
  ∧ cache w' !! key_count model_name = None.
Proof.
  intros [[it H]|[[items H]|[(i & data & H)|[[items H]|[[i H]|[ids H]]]]]].
  - destruct (create_item_cache it w r w' H) as [Hp Hc]. by rewrite Hp.
  - unfold create_items in H. destruct items as [|x items]; [done|].
    revert H. unfold mbind at 1, M_bind at 1, gets at 1.
    destruct (Table.insert_all (x :: items) (db w)) as [[items' d']|] eqn:Hins; [|done].
    unfold mbind at 1, M_bind at 1, modify at 1.
    destruct (recache_keeps_pages skip limit items' (insert_all_ids _ _ _ _ Hins)
                (set_db d' w)) as (w1 & Hrun & _ & Hc).
    unfold mbind at 1, M_bind at 1. rewrite Hrun.
    unfold mbind at 1, M_bind at 1.
    pose proof (invalidate_keeps_pages skip limit w1) as Hp.
    pose proof (invalidate_drops_count w1) as Hn.
    destruct (_invalidate_all_cache model_name w1) as [[[]|e] w2] eqn:Hinv;
      [|by unfold _invalidate_all_cache, _delete_cache in Hinv].
    unfold mret, M_ret. intros [= <- <-]. simpl in Hp, Hn. by rewrite Hp, Hc.
  - revert H. unfold update_item. run.
    destruct (Table.get i (db w)) as [it|]; [|done].
    destruct (Table.update i (apply_update data it) (db w)) as [d'|]; [|done].
    unfold _invalidate_all_cache, _delete_cache, _set_cache, Disk.set, Disk.del. run.
    intros H.
    assert (∀ k, k ≠ key_id model_name i →
              cache w' !! k
              = delete (key_count model_name) (delete (key_all model_name)
                  (delete (key_id model_name i) (cache w))) !! k) as Hc.
    { intros k Hk. destruct (truthy ttl); simpl in H; injection H as _ <-; simpl;
        by rewrite lookup_insert_ne. }
    split.
    + rewrite Hc by (intros E; by apply (key_id_ne_page i skip limit)).
      rewrite !lookup_delete_ne; [done | | |]; intros E.
      * by apply (key_id_ne_page i skip limit).
      * by apply (key_page_ne_all skip limit).
      * by apply (key_page_ne_count skip limit).
    + rewrite Hc by (intros E; by apply (key_id_ne_count i)). apply lookup_delete_eq.
  - unfold update_items in H. destruct items as [|x items]; [done|].
    destruct (existsb _ _); [done|].
    revert H. unfold mbind at 1, M_bind at 1, gets at 1.
    pose proof (update_loop_cache (x :: items) (db w) (db w) [] w) as Hc0.
    unfold mbind at 1, M_bind at 1.
    destruct (update_loop engine non_field (x :: items) (db w) (db w) [] w)
      as [[[[fl d'] upd]|e] w0]; [|done].
    simpl in Hc0. unfold update_items_commit.
    destruct (flushes engine fl d'); [|done].
    unfold mbind at 1, M_bind at 1, modify at 1.
    set (refreshed := omap (λ i, Table.get i d') upd).
    assert (∀ it, it ∈ refreshed → ∃ i, it !! "id" = Some (VInt i)) as Hids.
    { intros it (i & _ & Hit)%list_elem_of_omap. exists i.
      by apply TableFacts.get_Some in Hit as [_ ?]. }
    destruct (recache_keeps_pages skip limit refreshed Hids (set_db d' w0))
      as (w1 & Hrun & _ & Hc).
    unfold mbind at 1, M_bind at 1. rewrite Hrun.
    unfold mbind at 1, M_bind at 1.
    pose proof (invalidate_keeps_pages skip limit w1) as Hp.
    pose proof (invalidate_drops_count w1) as Hn.
    destruct (_invalidate_all_cache model_name w1) as [[[]|e] w2] eqn:Hinv;
      [|by unfold _invalidate_all_cache, _delete_cache in Hinv].
    unfold mret, M_ret. intros [= <- <-]. simpl in Hp, Hn, Hc.
    by rewrite Hp, Hc, Hc0.
  - revert H. unfold delete_item. run.
    destruct (Table.get i (db w)); [|done].
    unfold _invalidate_all_cache, _delete_cache, Disk.del. run.
    intros [= <- <-]. simpl. split; [|apply lookup_delete_eq].
    rewrite !lookup_delete_ne; [done | | |]; intros E.
    + by apply (key_id_ne_page i skip limit).
    + by apply (key_page_ne_all skip limit).
    + by apply (key_page_ne_count skip limit).
  - unfold delete_items in H. destruct ids as [|x ids]; [done|].
    revert H. unfold mbind at 1, M_bind at 1, gets at 1.
    pose proof (delete_loop_keeps_pages skip limit (x :: ids) (db w) [] 0 w) as Hc.
    unfold mbind at 1, M_bind at 1.
    destruct (delete_loop model_name (x :: ids) (db w) [] 0 w)
      as [[[[d' pend] c']|e] w0]; [|done].
    unfold _invalidate_all_cache, _delete_cache, Disk.del. run.
    intros [= <- <-]. simpl in *. split; [|apply lookup_delete_eq].
    rewrite !lookup_delete_ne; [done | |]; intros E.
    + by apply (key_page_ne_all skip limit).
    + by apply (key_page_ne_count skip limit).
Qed.

(** C1, at a listing cached before a write.  With [ann] in the table,
    [read_items 0 100] caches the page [[ann]]; [create_item] then adds
    [bob] and runs its invalidation; the next [read_items 0 100] hits the
    cache and returns the page without [bob], although the table's first
    hundred rows are now [ann] and [bob].  The count, whose key the
    invalidation does delete, is served fresh. *)
Theorem stale_page_after_create :
  let w1 := snd (read_items "user" None 0 100 Sample.w_ann) in
  let w2 := snd (create_item "user" None Sample.bob_new w1) in
  fst (create_item "user" None Sample.bob_new w1) = Ok (RBody (CItem Sample.bob))
  ∧ Table.select 0 100 (db w2) = [Sample.ann; Sample.bob]
  ∧ fst (read_items "user" None 0 100 w2) = Ok (RBody (CList [Sample.ann]))
  ∧ fst (count_items "user" None w2) = Ok (RCount (CInt 2)).
Proof. vm_compute. repeat split. Qed.

(** *** C5: the read protocol *)

Lemma read_items_hit (skip limit : Z) (w : world) (v : cval) :
  0 ≤ skip → 1 ≤ limit ≤ 1000 →
  Disk.get (now w) (key_page model_name skip limit) (cache w) = Some v →
  read_items model_name ttl skip limit w = (Ok (RBody v), w).
Proof.
  intros Hs Hl H. unfold read_items, _get_cache.
  rewrite !(proj2 (Z.leb_le _ _)) by lia. run. by rewrite H.
Qed.

Lemma count_items_hit (w : world) (v : cval) :
  Disk.get (now w) (key_count model_name) (cache w) = Some v →
  count_items model_name ttl w = (Ok (RCount v), w).
Proof. intros H. unfold count_items, _get_cache. run. by rewrite H. Qed.

Lemma read_items_miss (skip limit : Z) (w : world) :
  0 ≤ skip → 1 ≤ limit ≤ 1000 →
  Disk.get (now w) (key_page model_name skip limit) (cache w) = None →
  read_items model_name ttl skip limit w
  = (Ok (RBody (CList (Table.select skip limit (db w)))),
     set_cache (<[key_page model_name skip limit :=
                    Stored (CList (Table.select skip limit (db w)))
                           (entry_expiry ttl (now w))]> (cache w)) w).
Proof.
  intros Hs Hl H. unfold read_items, _get_cache, _set_cache, entry_expiry, truthy, Disk.set.
  rewrite !(proj2 (Z.leb_le _ _)) by lia. run. rewrite H.
  destruct ttl as [x|]; simpl; [|done]. by destruct (x =? 0).
Qed.

Lemma count_items_miss (w : world) :
  Disk.get (now w) (key_count model_name) (cache w) = None →
  count_items model_name ttl w
  = (Ok (RCount (CInt (Table.count (db w)))),
     set_cache (<[key_count model_name :=
                    Stored (CInt (Table.count (db w))) (entry_expiry ttl (now w))]>
                  (cache w)) w).
Proof.
  intros H. unfold count_items, _get_cache, _set_cache, entry_expiry, truthy, Disk.set.
  run. rewrite H. destruct ttl as [x|]; simpl; [|done]. by destruct (x =? 0).
Qed.

Lemma read_item_miss (i : Z) (it : item) (w : world) :
  Disk.get (now w) (key_id model_name i) (cache w) = None →
  Table.get i (db w) = Some it →
  read_item model_name ttl i w
  = (Ok (RBody (CItem it)),
     set_cache (<[key_id model_name i :=
                    Stored (CItem it) (entry_expiry ttl (now w))]> (cache w)) w).
Proof.
  intros H Hd. unfold read_item, _get_cache, _set_cache, entry_expiry, truthy, Disk.set.
  run. rewrite H, Hd. destruct ttl as [x|]; simpl; [|done]. by destruct (x =? 0).
Qed.

(** The read protocol as the code has it.  On a hit the three reads return
    the cached value and leave the world as it is, whatever the table
    holds.  On a miss they load from the table, cache what they loaded and
    return it, except that [read_item] of an id the table does not hold
    raises not-found and caches nothing; the entry expires [ttl] seconds
    after it was written when [ttl] is a non-zero number, and never when
    [ttl] is [None] or [0]. *)
Lemma read_protocol (w : world) :
  (∀ i v d, Disk.get (now w) (key_id model_name i) (cache w) = Some v →
     read_item model_name ttl i (set_db d w) = (Ok (RBody v), set_db d w))
  ∧ (∀ skip limit v d, 0 ≤ skip → 1 ≤ limit ≤ 1000 →
     Disk.get (now w) (key_page model_name skip limit) (cache w) = Some v →
     read_items model_name ttl skip limit (set_db d w) = (Ok (RBody v), set_db d w))
  ∧ (∀ v d, Disk.get (now w) (key_count model_name) (cache w) = Some v →
     count_items model_name ttl (set_db d w) = (Ok (RCount v), set_db d w))
  ∧ (∀ i it, Disk.get (now w) (key_id model_name i) (cache w) = None →
     Table.get i (db w) = Some it →
     read_item model_name ttl i w
     = (Ok (RBody (CItem it)),
        set_cache (<[key_id model_name i :=
                       Stored (CItem it) (entry_expiry ttl (now w))]> (cache w)) w))
  ∧ (∀ i, Disk.get (now w) (key_id model_name i) (cache w) = None →
     Table.get i (db w) = None →
     read_item model_name ttl i w = (Raise (HTTPException HTTP_404_NOT_FOUND), w))
  ∧ (∀ skip limit, 0 ≤ skip → 1 ≤ limit ≤ 1000 →
     Disk.get (now w) (key_page model_name skip limit) (cache w) = None →
     read_items model_name ttl skip limit w
     = (Ok (RBody (CList (Table.select skip limit (db w)))),
        set_cache (<[key_page model_name skip limit :=
                       Stored (CList (Table.select skip limit (db w)))
                              (entry_expiry ttl (now w))]> (cache w)) w))
  ∧ (Disk.get (now w) (key_count model_name) (cache w) = None →
     count_items model_name ttl w
     = (Ok (RCount (CInt (Table.count (db w)))),
        set_cache (<[key_count model_name :=
                       Stored (CInt (Table.count (db w)))
                              (entry_expiry ttl (now w))]> (cache w)) w))
  ∧ (∀ x, ttl = Some x → x ≠ 0 → entry_expiry ttl (now w) = Some (now w + x))
  ∧ (ttl = None ∨ ttl = Some 0 → entry_expiry ttl (now w) = None).
Proof.
  repeat split.
  - intros i v d H. by apply read_item_hit.
  - intros skip limit v d Hs Hl H. by apply read_items_hit.
  - intros v d H. by apply count_items_hit.
  - intros i it H Hd. by apply read_item_miss.
  - intros i H Hd. by apply read_item_miss_absent.
  - intros skip limit Hs Hl H. by apply read_items_miss.
  - apply count_items_miss.
  - intros x -> Hx. unfold entry_expiry. by rewrite (proj2 (Z.eqb_neq x 0) Hx).
  - intros [->| ->]; reflexivity.
Qed.


(** *** C6, C7: deleting in bulk *)

(** The loop never raises and touches only the cache and the log.  Once
    what is pending has been flushed, every id of the list is gone and the
    other rows are untouched; an id that was not there is warned about;
    and the cache key of an id that was is deleted. *)
Lemma delete_loop_run (ids : list Z) :
  ∀ (sess : list item) (pending : list Z) (c : Z) (w : world),
  ∃ sess' pending' c' w',
    delete_loop model_name ids sess pending c w = (Ok (sess', pending', c'), w')
    ∧ db w' = db w ∧ sessions w' = sessions w ∧ now w' = now w
    ∧ (∀ j, Table.get j (Table.flush_deleted pending' sess')
            = if bool_decide (j ∈ ids) then None
              else Table.get j (Table.flush_deleted pending sess))
    ∧ (∀ e, e ∈ log w → e ∈ log w')
    ∧ (∀ i, i ∈ ids → i ∉ pending →
         Table.get i (Table.flush_deleted pending sess) = None →
         (WARNING, not_found_msg (Py.str_of_int i)) ∈ log w')
    ∧ (∀ k, cache w !! k = None → cache w' !! k = None)
    ∧ (∀ i, i ∈ ids → is_Some (Table.get i (Table.flush_deleted pending sess)) →
         cache w' !! key_id model_name i = None).
Proof.
  induction ids as [|i ids IH]; intros sess pending c w.
  - exists sess, pending, c, w. simpl. run. repeat split; try done.
    + intros i Hi. by apply elem_of_nil in Hi.
    + intros i Hi. by apply elem_of_nil in Hi.
  - simpl. destruct (decide (i ∈ pending)) as [Hp|Hp].
    + rewrite (bool_decide_eq_true_2 _ Hp). unfold _delete_cache at 1. run.
      destruct (IH sess pending (c + 1)
                  (set_cache (Disk.del (key_id model_name i) (cache w)) w))
        as (sess' & p' & c' & w' & Hrun & Hdb & Hs & Hn & Hget & Hlog & Hwarn & Hmono & Hdel).
      assert (Table.get i (Table.flush_deleted pending sess) = None) as Hgone.
      { by rewrite TableFacts.get_flush_deleted, bool_decide_eq_true_2. }
      exists sess', p', c', w'. rewrite Hrun. simpl in *.
      split; [done|]. split; [done|]. split; [done|]. split; [done|].
      split; [|split; [done|]; split; [|split]].
      * intros j. rewrite Hget. destruct (decide (j = i)) as [->|Hne].
        -- rewrite (bool_decide_eq_true_2 (i ∈ i :: ids)) by left.
           rewrite Hgone. by destruct (bool_decide (i ∈ ids)).
        -- rewrite (bool_decide_ext (j ∈ ids) (j ∈ i :: ids)); [done|].
           rewrite elem_of_cons. split; [auto | by intros [->|?]].
      * intros j [->|Hj]%elem_of_cons Hnp Hnone; [done|]. by apply Hwarn.
      * intros k Hk. apply Hmono. unfold Disk.del.
        rewrite lookup_delete_None. auto.
      * intros j [->|Hj]%elem_of_cons Hsome.
        -- rewrite Hgone in Hsome. by destruct Hsome.
        -- by apply Hdel.
    + rewrite (bool_decide_eq_false_2 _ Hp).
      set (eff := Table.flush_deleted pending sess).
      destruct (Table.get i eff) as [it|] eqn:Hi.
      * unfold _delete_cache at 1. run.
        destruct (IH eff [i] (c + 1)
                    (set_cache (Disk.del (key_id model_name i) (cache w)) w))
          as (sess' & p' & c' & w' & Hrun & Hdb & Hs & Hn & Hget & Hlog & Hwarn & Hmono & Hdel).
        exists sess', p', c', w'. rewrite Hrun. simpl in *.
        split; [done|]. split; [done|]. split; [done|]. split; [done|].
        split; [|split; [done|]; split; [|split]].
        -- intros j. rewrite Hget, TableFacts.get_remove.
           destruct (decide (j = i)) as [->|Hne].
           ++ rewrite (bool_decide_eq_true_2 (i ∈ i :: ids)) by left.
              rewrite (bool_decide_eq_true_2 (i = i)) by done.
              by destruct (bool_decide (i ∈ ids)).
           ++ rewrite (bool_decide_eq_false_2 (j = i)) by done.
              rewrite (bool_decide_ext (j ∈ ids) (j ∈ i :: ids)); [done|].
              rewrite elem_of_cons. split; [auto | by intros [->|?]].
        -- intros j [->|Hj]%elem_of_cons Hnp Hnone; [congruence|].
           apply Hwarn; [done | |].
           ++ intros ->%list_elem_of_singleton. congruence.
           ++ rewrite TableFacts.get_remove. by destruct (bool_decide (j = i)).
        -- intros k Hk. apply Hmono. unfold Disk.del.
           rewrite lookup_delete_None. auto.
        -- intros j [->|Hj]%elem_of_cons Hsome.
           ++ apply Hmono. apply lookup_delete_eq.
           ++ destruct (decide (j = i)) as [->|Hne].
              ** apply Hmono. apply lookup_delete_eq.
              ** apply Hdel; [done|]. rewrite TableFacts.get_remove.
                 by rewrite bool_decide_eq_false_2.
      * run.
        destruct (IH eff [] c (add_log WARNING (not_found_msg (Py.str_of_int i)) w))
          as (sess' & p' & c' & w' & Hrun & Hdb & Hs & Hn & Hget & Hlog & Hwarn & Hmono & Hdel).
        exists sess', p', c', w'. rewrite Hrun. simpl in *.
        split; [done|]. split; [done|]. split; [done|]. split; [done|].
        split; [|split; [|split; [|split; [done|]]]].
        -- intros j. rewrite Hget. destruct (decide (j = i)) as [->|Hne].
           ++ rewrite (bool_decide_eq_true_2 (i ∈ i :: ids)) by left.
              by destruct (bool_decide (i ∈ ids)).
           ++ rewrite (bool_decide_ext (j ∈ ids) (j ∈ i :: ids)); [done|].
              rewrite elem_of_cons. split; [auto | by intros [->|?]].
        -- intros e He. apply Hlog. apply elem_of_app. by left.
        -- intros j [->|Hj]%elem_of_cons Hnp Hnone.
           ++ apply Hlog. apply elem_of_app. right. by left.
           ++ apply Hwarn; [done | by apply not_elem_of_nil | done].
        -- intros j [->|Hj]%elem_of_cons Hsome; [|by apply Hdel].
           rewrite Hi in Hsome. by destruct Hsome.
Qed.

(** The counter.  While the loop runs over a list, [seen] being the ids
    it has been through and [prev] the id it has just found, if any, the
    session holds what the table [d] held less the ids seen, and the
    object of [prev] is the one marked as deleted.  From such a state the
    counter grows by the number of entries that find a row. *)
Lemma delete_loop_count (d : list item) (ids : list Z) :
  ∀ (seen : list Z) (prev : option Z) (sess : list item) (pending : list Z)
    (c : Z) (w : world),
  pending = option_list prev →
  (∀ j, Table.get j (Table.flush_deleted pending sess)
        = if bool_decide (j ∈ seen) then None else Table.get j d) →
  (∀ p, prev = Some p → is_Some (Table.get p d) ∧ p ∈ seen) →
  ∃ sess' pending' w',
    delete_loop model_name ids sess pending c w
    = (Ok (sess', pending', c + Z.of_nat (entries_found d seen prev ids)), w').
Proof.
  induction ids as [|i ids IH]; intros seen prev sess pending c w Hp Hget Hprev.
  - exists sess, pending, w. simpl. run. by rewrite Z.add_0_r.
  - subst pending. simpl. destruct (decide (prev = Some i)) as [->|Hne].
    + destruct (Hprev i eq_refl) as [Hheld Hseen]. simpl option_list in *.
      rewrite (bool_decide_eq_true_2 (i ∈ [i])) by left.
      rewrite (bool_decide_eq_true_2 (is_Some (Table.get i d))) by done.
      rewrite (bool_decide_eq_true_2 (Some i = Some i)) by done.
      rewrite orb_true_r. simpl andb. cbv iota.
      unfold _delete_cache at 1. run.
      destruct (IH (i :: seen) (Some i) sess [i] (c + 1)
                  (set_cache (Disk.del (key_id model_name i) (cache w)) w))
        as (sess' & p' & w' & Hrun); [done | |  |].
      * intros j. rewrite Hget.
        rewrite (bool_decide_ext (j ∈ i :: seen) (j ∈ seen)); [done|].
        rewrite elem_of_cons. split; [by intros [->|?] | auto].
      * intros p [= <-]. split; [done | left].
      * exists sess', p', w'. rewrite Hrun. do 3 f_equal. lia.
    + assert (i ∉ option_list prev) as Hnp.
      { destruct prev as [p|]; simpl.
        - intros ->%list_elem_of_singleton. done.
        - apply not_elem_of_nil. }
      rewrite (bool_decide_eq_false_2 _ Hnp).
      rewrite (bool_decide_eq_false_2 (prev = Some i)) by done.
      rewrite orb_false_r.
      set (eff := Table.flush_deleted (option_list prev) sess) in *.
      rewrite Hget.
      destruct (decide (i ∈ seen)) as [Hs|Hs].
      * rewrite (bool_decide_eq_true_2 (i ∈ seen)) by done.
        rewrite (bool_decide_eq_false_2 (i ∉ seen)) by auto.
        rewrite andb_false_r. run.
        destruct (IH (i :: seen) None eff [] c
                    (add_log WARNING (not_found_msg (Py.str_of_int i)) w))
          as (sess' & p' & w' & Hrun); [done | | done |].
        -- intros j. simpl. rewrite Hget.
           destruct (decide (j = i)) as [->|Hji].
           ++ rewrite (bool_decide_eq_true_2 (i ∈ seen)) by done.
              by rewrite (bool_decide_eq_true_2 (i ∈ i :: seen)) by left.
           ++ rewrite (bool_decide_ext (j ∈ seen) (j ∈ i :: seen)); [done|].
              rewrite elem_of_cons. split; [auto | by intros [->|?]].
        -- exists sess', p', w'. by rewrite Hrun.
      * rewrite (bool_decide_eq_false_2 (i ∈ seen)) by done.
        rewrite (bool_decide_eq_true_2 (i ∉ seen)) by done.
        rewrite andb_true_r.
        destruct (Table.get i d) as [it|] eqn:Hi.
        -- rewrite (bool_decide_eq_true_2 (is_Some (Some it))) by done.
           unfold _delete_cache at 1. run.
           destruct (IH (i :: seen) (Some i) eff [i] (c + 1)
                       (set_cache (Disk.del (key_id model_name i) (cache w)) w))
             as (sess' & p' & w' & Hrun); [done | | |].
           ++ intros j. simpl. rewrite TableFacts.get_remove, Hget.
              destruct (decide (j = i)) as [->|Hji].
              ** rewrite (bool_decide_eq_true_2 (i = i)) by done.
                 by rewrite (bool_decide_eq_true_2 (i ∈ i :: seen)) by left.
              ** rewrite (bool_decide_eq_false_2 (j = i)) by done.
                 rewrite (bool_decide_ext (j ∈ seen) (j ∈ i :: seen)); [done|].
                 rewrite elem_of_cons. split; [auto | by intros [->|?]].
           ++ intros p [= <-]. split; [by rewrite Hi | left].
           ++ exists sess', p', w'. rewrite Hrun. do 3 f_equal. lia.
        -- rewrite (bool_decide_eq_false_2 (is_Some None)) by (by intros [? ?]).
           run.
           destruct (IH (i :: seen) None eff [] c
                       (add_log WARNING (not_found_msg (Py.str_of_int i)) w))
             as (sess' & p' & w' & Hrun); [done | | done |].
           ++ intros j. simpl. rewrite Hget.
              destruct (decide (j = i)) as [->|Hji].
              ** rewrite (bool_decide_eq_false_2 (i ∈ seen)) by done.
                 by rewrite (bool_decide_eq_true_2 (i ∈ i :: seen)) by left.
              ** rewrite (bool_decide_ext (j ∈ seen) (j ∈ i :: seen)); [done|].
                 rewrite elem_of_cons. split; [auto | by intros [->|?]].
           ++ exists sess', p', w'. by rewrite Hrun.
Qed.

(** For a list without repeated ids, the entries that find a row are the
    ids the table holds. *)
Lemma entries_found_NoDup (d : list item) (ids : list Z) :
  ∀ (seen : list Z) (prev : option Z),
  NoDup ids → (∀ i, i ∈ ids → i ∉ seen) → (∀ i, i ∈ ids → prev ≠ Some i) →
  entries_found d seen prev ids
  = length (List.filter (λ i, bool_decide (is_Some (Table.get i d))) ids).
Proof.
  induction ids as [|i ids IH]; intros seen prev Hnd Hseen Hprev; [done|].
  apply NoDup_cons in Hnd as [Hni Hnd]. simpl.
  rewrite (bool_decide_eq_true_2 (i ∉ seen)) by (apply Hseen; left).
  rewrite orb_true_l, andb_true_r.
  destruct (bool_decide (is_Some (Table.get i d))); simpl.
  - f_equal. apply IH; [done | |].
    + intros j Hj [->|Hs]%elem_of_cons; [done|]. apply (Hseen j); [by right | done].
    + intros j Hj [= ->]. done.
  - apply IH; [done | | done].
    intros j Hj [->|Hs]%elem_of_cons; [done|]. apply (Hseen j); [by right | done].
Qed.

(** A non-empty bulk delete never raises: it runs the loop, commits,
    invalidates and logs the count. *)
Lemma delete_items_run (ids : list Z) (w : world) :
  ids ≠ [] →
  ∃ sess' pending' c' w1,
    delete_loop model_name ids (db w) [] 0 w = (Ok (sess', pending', c'), w1)
    ∧ delete_items model_name ids w
      = (Ok RNone,
         add_log INFO (deleted_msg c' (Z.of_nat (length ids)))
           (snd (_invalidate_all_cache model_name
                   (set_db (Table.flush_deleted pending' sess') w1)))).
Proof.
  intros Hne.
  destruct (delete_loop_run ids (db w) [] 0 w) as (sess' & p' & c' & w1 & Hrun & _).
  exists sess', p', c', w1. split; [done|].
  destruct ids as [|i ids]; [done|].
  unfold delete_items. unfold mbind at 1, M_bind at 1, gets at 1.
  unfold mbind at 1, M_bind at 1. rewrite Hrun.
  unfold _invalidate_all_cache, _delete_cache. run. done.
Qed.

(** C6.  For an id the table does not hold, [delete_item] raises not-found
    and leaves the world exactly as it was, while a [delete_items] whose
    list contains it returns normally: it logs the warning for that id,
    every id of the list is gone from the table afterwards, and the rows
    with other ids are as before. *)
Theorem delete_missing_id (i : Z) (w : world) :
  Table.get i (db w) = None →
  delete_item model_name i w = (Raise (HTTPException HTTP_404_NOT_FOUND), w)
  ∧ ∀ ids, i ∈ ids →
      ∃ w', delete_items model_name ids w = (Ok RNone, w')
            ∧ (WARNING, not_found_msg (Py.str_of_int i)) ∈ log w'
            ∧ (∀ j, j ∈ ids → Table.get j (db w') = None)
            ∧ (∀ j, j ∉ ids → Table.get j (db w') = Table.get j (db w)).
Proof.
  intros Hi. split.
  - unfold delete_item. run. by rewrite Hi.
  - intros ids Hin.
    assert (ids ≠ []) as Hne by (intros ->; by apply elem_of_nil in Hin).
    destruct (delete_items_run ids w Hne) as (sess' & p' & c' & w1 & Hloop & Hrun).
    destruct (delete_loop_run ids (db w) [] 0 w)
      as (sess2 & p2 & c2 & w2 & Hloop2 & _ & _ & _ & Hget & _ & Hwarn & _).
    rewrite Hloop in Hloop2. injection Hloop2 as <- <- <- <-.
    eexists. split; [exact Hrun|].
    unfold _invalidate_all_cache, _delete_cache. run. split; [|split].
    + apply elem_of_app. left. apply Hwarn; [done | apply not_elem_of_nil | done].
    + intros j Hj. by rewrite Hget, bool_decide_eq_true_2.
    + intros j Hj. by rewrite Hget, bool_decide_eq_false_2.
Qed.



(** *** C8: login *)

Lemma matches_spec (data : string → string) (r : item) :
  matches engine login_fields data r = true
  ↔ ∀ f, f ∈ login_fields → sql_eq engine (getattr r f) (data f) = true.
Proof.
  unfold matches. rewrite forallb_forall. split.
  - intros H f Hf. apply list_elem_of_In in Hf. by apply H.
  - intros H f Hf. apply H. by apply list_elem_of_In.
Qed.

Lemma login_subset_lookup (user : item) (f : string) :
  login_subset login_fields user !! f
  = if bool_decide (f ∈ login_fields) then Some (getattr user f) else None.
Proof.
  unfold login_subset. generalize login_fields as l.
  induction l as [|g l IH].
  - by rewrite fmap_nil, list_to_map_nil, lookup_empty.
  - rewrite fmap_cons, list_to_map_cons. simpl fst. simpl snd.
    destruct (decide (g = f)) as [->|Hne].
    + rewrite lookup_insert_eq. by rewrite bool_decide_eq_true_2 by left.
    + rewrite lookup_insert_ne by done. rewrite IH.
      rewrite (bool_decide_ext (f ∈ l) (f ∈ g :: l)); [done|].
      rewrite elem_of_cons. split; [auto | by intros [->|?]].
Qed.

(** C8.  A row matches when, in every login field, the engine finds what
    the row holds equal to the submitted string.  When no row matches,
    [login_route] raises unauthorized and leaves the world as it was.  When
    some row does, it takes such a row, stores under the minted token the
    row restricted to the login fields, to expire [login_ttl] seconds from
    now, and returns the token with that same restriction. *)
Theorem login_route_spec (data : string → string) (token : string) (w : world) :
  ((∀ r, r ∈ db w →
      ¬ ∀ f, f ∈ login_fields → sql_eq engine (getattr r f) (data f) = true) →
     login_route engine login_fields login_ttl data token w
     = (Raise (HTTPException HTTP_401_UNAUTHORIZED), w))
  ∧ ((∃ r, r ∈ db w
           ∧ ∀ f, f ∈ login_fields → sql_eq engine (getattr r f) (data f) = true) →
     ∃ user,
       user ∈ db w
       ∧ (∀ f, f ∈ login_fields → sql_eq engine (getattr user f) (data f) = true)
       ∧ (∀ f, login_subset login_fields user !! f
               = if bool_decide (f ∈ login_fields)
                 then Some (getattr user f) else None)
       ∧ login_route engine login_fields login_ttl data token w
         = (Ok (RLogin token (login_subset login_fields user)),
            set_sessions
              (<[token := Stored (login_subset login_fields user)
                                 (Some (now w + login_ttl))]> (sessions w)) w)).
Proof.
  split.
  - intros Hnone. unfold login_route. run.
    destruct (List.find (matches engine login_fields data) (db w)) as [u|] eqn:Hf;
      [|done].
    apply List.find_some in Hf as [Hin Hm]. exfalso.
    apply (Hnone u); [by apply list_elem_of_In | by apply matches_spec].
  - intros (r & Hr & Hm). unfold login_route. run.
    destruct (List.find (matches engine login_fields data) (db w)) as [u|] eqn:Hf.
    + apply List.find_some in Hf as [Hin Hu].
      pose proof (proj1 (matches_spec data u) Hu) as Hu'.
      exists u. split; [by apply list_elem_of_In|]. split; [done|]. split; [|done].
      intros f. apply login_subset_lookup.
    + exfalso. apply list_elem_of_In in Hr.
      pose proof (List.find_none _ _ Hf r Hr) as Hno.
      by rewrite (proj2 (matches_spec data r) Hm) in Hno.
Qed.

(** *** C9: the token behind a bearer header *)

(** C9.  For a header [Bearer ] followed by [r], the token that
    [verify_token] and [logout_route] look up in the session store is [r]
    with every occurrence of [Bearer ] removed: the header's own prefix
    goes and so does any further occurrence.  The token therefore differs
    from [r] whenever [Bearer ] occurs in [r], and is [r] exactly when it
    does not. *)
Theorem bearer_token_lookup (r : string) (w : world) :
  let authorization := "Bearer " +:+ r in
  let token := Py.remove "Bearer " r in
  Py.remove "Bearer " authorization = token
  ∧ verify_token authorization w
    = (match Disk.get (now w) token (sessions w) with
       | Some user_data => Ok user_data
       | None => Raise (HTTPException HTTP_401_UNAUTHORIZED)
       end, w)
  ∧ logout_route authorization w
    = (if Disk.contains (now w) token (sessions w)
       then (Ok (RDetail "Logout realizado com sucesso"),
             set_sessions (delete token (sessions w)) w)
       else (Raise (HTTPException HTTP_401_UNAUTHORIZED), w))
  ∧ (Py.occurs "Bearer " r → token ≠ r)
  ∧ (¬ Py.occurs "Bearer " r → token = r).
Proof.
  intros authorization token.
  assert (Py.remove "Bearer " authorization = token) as Htok
    by apply PyFacts.remove_bearer_prefix.
  split; [done|]. split; [|split; [|split]].
  - unfold verify_token. fold authorization.
    unfold authorization at 1. rewrite PyFacts.startswith_bearer. simpl negb. cbv iota.
    rewrite Htok. run. by destruct (Disk.get (now w) token (sessions w)).
  - unfold logout_route. fold authorization.
    unfold authorization at 1. rewrite PyFacts.startswith_bearer. simpl negb. cbv iota.
    rewrite Htok. run. by destruct (Disk.contains (now w) token (sessions w)).
  - intros Hocc Heq.
    pose proof (PyFacts.remove_go_shorter "Bearer " r Hocc ltac:(done)) as Hlt.
    unfold token, Py.remove in Heq. rewrite Heq in Hlt. lia.
  - intros Hno. by apply PyFacts.remove_go_id.
Qed.
(** *** C10: one entry of a bulk update *)

Lemma dict_get_None (data : dict) (k : string) :
  Dict.get data k = None ↔ k ∉ data.*1.
Proof.
  induction data as [|[key v] rest IH]; simpl.
  - split; [intros _; apply not_elem_of_nil | done].
  - destruct (String.eqb_spec key k) as [->|Hne].
    + split; [done|]. intros H. destruct H. left.
    + rewrite IH, not_elem_of_cons. split; [auto | by intros [_ ?]].
Qed.

Lemma dict_get_elem (data : dict) (k : string) (v : value) :
  Dict.get data k = Some v → k ∈ data.*1.
Proof.
  intros H. destruct (decide (k ∈ data.*1)) as [|Hn]; [done|].
  apply dict_get_None in Hn. congruence.
Qed.

Lemma dict_contains_id (data : dict) :
  Dict.contains data "id" = bool_decide ("id" ∈ data.*1).
Proof.
  unfold Dict.contains. destruct (Dict.get data "id") as [v|] eqn:H.
  - by rewrite bool_decide_eq_true_2 by (by apply dict_get_elem in H).
  - by rewrite bool_decide_eq_false_2 by (by apply dict_get_None).
Qed.

(** An entry that is applied in full writes its value into exactly the
    fields that the item has, the entry names and are not [id]; every
    other field is as it was, and none of its keys names an attribute that
    is no field. *)
Lemma apply_entry_inr (data : dict) :
  ∀ (it it' : item),
  NoDup data.*1 →
  apply_entry non_field data it = inr it' →
  (∀ k, it' !! k =
        match Dict.get data k with
        | Some v =>
            if bool_decide (k ≠ "id") && bool_decide (is_Some (it !! k))
            then Some v else it !! k
        | None => it !! k
        end)
  ∧ (∀ k, k ∈ data.*1 → k ≠ "id" → it !! k = None → non_field k = None).
Proof.
  induction data as [|[key v] rest IH]; intros it it' Hnd H.
  - simpl in H. injection H as <-. split; [done|].
    intros k Hk. by apply elem_of_nil in Hk.
  - rewrite fmap_cons in Hnd. apply NoDup_cons in Hnd as [Hkey Hnd]. simpl in Hkey.
    apply dict_get_None in Hkey. simpl in H.
    destruct (bool_decide (key ≠ "id") && hasattr non_field it key) eqn:Hc.
    + apply andb_true_iff in Hc as [Hid Hattr].
      unfold setattr_any in H. destruct (it !! key) as [x|] eqn:Hx; [|done].
      destruct (IH _ _ Hnd H) as [Hl Hn]. split.
      * intros k. rewrite Hl. simpl. unfold setattr.
        destruct (String.eqb_spec key k) as [->|Hne].
        -- rewrite Hkey, lookup_insert_eq, Hid, Hx.
           by rewrite (bool_decide_eq_true_2 (is_Some (Some x))) by done.
        -- by rewrite lookup_insert_ne by done.
      * intros k [->|Hk]%elem_of_cons Hkid Hnone; [simpl in Hnone; congruence|].
        apply Hn; [done | done |]. unfold setattr.
        rewrite lookup_insert_ne; [done|]. intros ->. congruence.
    + destruct (IH _ _ Hnd H) as [Hl Hn]. split.
      * intros k. rewrite Hl. simpl.
        destruct (String.eqb_spec key k) as [->|Hne]; [|done].
        rewrite Hkey. unfold hasattr in Hc.
        destruct (bool_decide (k ≠ "id")); [|done].
        destruct (bool_decide (is_Some (it !! k))); [done|done].
      * intros k [->|Hk]%elem_of_cons Hkid Hnone; [|by apply Hn].
        simpl in *. unfold hasattr in Hc.
        rewrite (bool_decide_eq_true_2 (key ≠ "id")) in Hc by done.
        destruct (non_field key) as [e|] eqn:He; [|done].
        rewrite (bool_decide_eq_true_2 (is_Some (Some e))) in Hc by done.
        by rewrite orb_true_r in Hc.
Qed.

(** An entry whose application raises names, under a key other than
    [id], an attribute that is no field of the item; the exception is the
    one that assigning to it raises. *)
Lemma apply_entry_inl (data : dict) :
  ∀ (it : item) (e : failure),
  apply_entry non_field data it = inl e →
  ∃ k, k ∈ data.*1 ∧ k ≠ "id" ∧ it !! k = None ∧ non_field k = Some e.
Proof.
  induction data as [|[key v] rest IH]; intros it e H; [done|]. simpl in H.
  destruct (bool_decide (key ≠ "id") && hasattr non_field it key) eqn:Hc.
  - apply andb_true_iff in Hc as [Hid%bool_decide_eq_true Hattr].
    unfold setattr_any in H. destruct (it !! key) as [x|] eqn:Hx.
    + destruct (IH _ _ H) as (k & Hk & Hkid & Hnone & He).
      unfold setattr in Hnone. apply lookup_insert_None in Hnone as [Hnone _].
      exists k. split; [by right | done].
    + unfold hasattr in Hattr. rewrite Hx in Hattr.
      rewrite (bool_decide_eq_false_2 (is_Some None)) in Hattr by (by intros [? ?]).
      apply bool_decide_eq_true in Hattr as [e0 He0]. rewrite He0 in H.
      injection H as <-. exists key. split; [left | done].
  - destruct (IH _ _ H) as (k & Hk & Hrest). exists k. split; [by right | done].
Qed.

(** In a session that holds no object, [session.get] queries the table. *)
Lemma session_get_fresh (pk : option value) (d : list item) (w : world) :
  session_get engine pk d d [] w = (Ok (d, Table.get_pk engine pk d), w).
Proof.
  unfold session_get.
  assert (identity pk [] = None) as ->.
  { unfold identity. destruct pk as [[| | |]|]; try done;
      by rewrite bool_decide_eq_false_2 by apply not_elem_of_nil. }
  unfold flushes. by rewrite (bool_decide_eq_true_2 (d = d)) by done.
Qed.

Lemma update_items_valid (items_data : list dict) (w : world) :
  items_data ≠ [] →
  (∀ data, data ∈ items_data → "id" ∈ data.*1) →
  update_items engine model_name non_field ttl items_data w =
  match update_loop engine non_field items_data (db w) (db w) [] w with
  | (Ok (flushed, d', updated), w0) =>
      update_items_commit engine model_name ttl flushed d' updated w0
  | (Raise e, w0) => (Raise e, w0)
  end.
Proof.
  intros Hne Hall. unfold update_items.
  destruct items_data as [|data rest]; [done|].
  assert (existsb (λ data, negb (Dict.contains data "id")) (data :: rest) = false)
    as ->.
  { apply not_true_is_false. intros (x & Hx & Hc)%existsb_exists.
    apply list_elem_of_In, Hall in Hx. rewrite dict_contains_id in Hc.
    by rewrite bool_decide_eq_true_2 in Hc. }
  unfold mbind at 1, M_bind at 1, gets at 1.
  unfold mbind at 1, M_bind at 1.
  destruct (update_loop engine non_field (data :: rest) (db w) (db w) [] w)
    as [[[[flushed d'] updated]|e] w0]; done.
Qed.

(** A batch of one entry that finds its item, written out. *)
Lemma update_items_one (data : dict) (it : item) (i : Z) (w : world) :
  Table.get_pk engine (Dict.get data "id") (db w) = Some (i, it) →
  update_items engine model_name non_field ttl [data] w =
  match apply_entry non_field data it with
  | inl e => (Raise e, w)
  | inr it' =>
      let d' := Table.replace i it' (db w) in
      if flushes engine (db w) d'
      then
        match Table.get i d' with
        | Some r =>
            (Ok (RBody (CList [r])),
             World d'
               (delete (key_count model_name)
                  (delete (key_all model_name)
                     (<[key_of model_name r :=
                          Stored (CItem r) (entry_expiry ttl (now w))]>
                        (delete (key_of model_name r) (cache w)))))
               (sessions w) (now w) (log w))
        | None =>
            (Ok (RBody (CList [])),
             World d'
               (delete (key_count model_name)
                  (delete (key_all model_name) (cache w)))
               (sessions w) (now w) (log w))
        end
      else (Raise IntegrityError, w)
  end.
Proof.
  intros Hpk.
  assert ("id" ∈ data.*1) as Hid.
  { unfold Table.get_pk in Hpk.
    destruct (Dict.get data "id") as [v|] eqn:Hv; [|done].
    by apply dict_get_elem in Hv. }
  rewrite update_items_valid; [|done|].
  2:{ by intros x ->%list_elem_of_singleton. }
  cbn [update_loop]. unfold mbind at 1, M_bind at 1.
  rewrite session_get_fresh, Hpk.
  destruct (apply_entry non_field data it) as [e|it']; [done|].
  unfold mret, M_ret. simpl app. unfold update_items_commit. cbv zeta.
  destruct (flushes engine (db w) (Table.replace i it' (db w))); [|done].
  unfold mbind at 1, M_bind at 1, modify at 1. simpl omap.
  destruct (Table.get i (Table.replace i it' (db w))) as [r|]; simpl.
  - unfold _delete_cache, _invalidate_all_cache, _set_cache, entry_expiry, truthy,
      Disk.set, Disk.del. run.
    destruct ttl as [x|]; simpl; [|done]. by destruct (x =? 0).
  - unfold _delete_cache, _invalidate_all_cache, Disk.del. run. done.
Qed.


(** *** The key scheme *)

Lemma uint_of_string_underscore (x y : string) :
  NilEmpty.uint_of_string (x +:+ String "_" y) = None.
Proof.
  induction x as [|c x IH]; simpl.
  - by destruct (NilEmpty.uint_of_string y).
  - rewrite IH. by destruct c as [[] [] [] [] [] [] [] []].
Qed.

(** Nothing with an underscore in it parses as an integer, so no printed
    integer has one. *)
Lemma int_of_string_underscore (x y : string) :
  NilZero.int_of_string (x +:+ String "_" y) = None.
Proof.
  unfold NilZero.int_of_string, NilZero.uint_of_string.
  destruct x as [|c x]; simpl.
  - by destruct (NilEmpty.uint_of_string y).
  - destruct (Ascii.eqb c "-").
    + destruct x as [|c' x]; simpl.
      * by destruct (NilEmpty.uint_of_string y).
      * rewrite uint_of_string_underscore. by destruct c' as [[] [] [] [] [] [] [] []].
    + rewrite uint_of_string_underscore. by destruct c as [[] [] [] [] [] [] [] []].
Qed.

Lemma str_of_int_no_underscore (z : Z) (x y : string) :
  Py.str_of_int z ≠ x +:+ String "_" y.
Proof. apply PyFacts.str_of_int_not_word, int_of_string_underscore. Qed.

(** Two words joined by an underscore can be told apart again when the
    first has no underscore. *)
Lemma split_at_underscore (x x' y y' : string) :
  (∀ p q, x ≠ p +:+ String "_" q) → (∀ p q, x' ≠ p +:+ String "_" q) →
  x +:+ String "_" y = x' +:+ String "_" y' → x = x' ∧ y = y'.
Proof.
  revert x'. induction x as [|c x IH]; intros x' Hx Hx' H.
  - destruct x' as [|c' x']; simpl in H.
    + by injection H as ->.
    + injection H as <- _. by destruct (Hx' EmptyString x').
  - destruct x' as [|c' x']; simpl in H.
    + injection H as -> _. by destruct (Hx EmptyString x).
    + injection H as -> H. destruct (IH x') as [-> ->]; [| |done|done].
      * intros p q ->. by apply (Hx (String c' p) q).
      * intros p q ->. by apply (Hx' (String c' p) q).
Qed.

Lemma key_page_inj (skip limit skip' limit' : Z) :
  key_page model_name skip limit = key_page model_name skip' limit' →
  skip = skip' ∧ limit = limit'.
Proof.
  unfold key_page. intros H%PyFacts.append_inj_l.
  simpl in H. injection H as H.
  apply split_at_underscore in H as [Hs Hl].
  - split; by apply PyFacts.str_of_int_inj.
  - intros p q. apply str_of_int_no_underscore.
  - intros p q. apply str_of_int_no_underscore.
Qed.

(** X1.  The keys the handlers use never collide: the key of an id, the
    key of a page, the count key and the key [{model}_all] are pairwise
    different, two ids share a key only if they are equal, and two windows
    share a key only if they are the same window. *)
Theorem cache_keys_distinct (i j skip limit skip' limit' : Z) :
  key_id model_name i ≠ key_count model_name
  ∧ key_id model_name i ≠ key_all model_name
  ∧ key_id model_name i ≠ key_page model_name skip limit
  ∧ key_page model_name skip limit ≠ key_count model_name
  ∧ key_page model_name skip limit ≠ key_all model_name
  ∧ key_all model_name ≠ key_count model_name
  ∧ (key_id model_name i = key_id model_name j ↔ i = j)
  ∧ (key_page model_name skip limit = key_page model_name skip' limit'
     ↔ skip = skip' ∧ limit = limit').
Proof.
  split; [apply key_id_ne_count|]. split; [apply key_id_ne_all|].
  split; [apply key_id_ne_page|]. split; [apply key_page_ne_count|].
  split; [apply key_page_ne_all|]. split; [|split].
  - unfold key_all, key_count. intros H%PyFacts.append_inj_l. discriminate.
  - split; [apply key_id_inj | by intros ->].
  - split; [apply key_page_inj | by intros [-> ->]].
Qed.

(** *** Closed forms of the single-item writes *)

Lemma set_cache_true (k : string) (v : cval) (w : world) :
  _set_cache ttl k v true w
  = (Ok tt, set_cache (<[k := Stored v (entry_expiry ttl (now w))]> (cache w)) w).
Proof.
  unfold _set_cache, entry_expiry, truthy, Disk.set. run.
  destruct ttl as [x|]; simpl; [|done]. by destruct (x =? 0).
Qed.

Lemma create_item_run (it : item) (w : world) :
  create_item model_name ttl it w =
  match Table.insert it (db w) with
  | None => (Raise IntegrityError, w)
  | Some (it', d') =>
      (Ok (RBody (CItem it')),
       World d'
         (<[key_of model_name it' := Stored (CItem it') (entry_expiry ttl (now w))]>
            (delete (key_of model_name it')
               (delete (key_count model_name)
                  (delete (key_all model_name) (cache w)))))
         (sessions w) (now w) (log w))
  end.
Proof.
  unfold create_item, _invalidate_all_cache, _delete_cache, _set_cache,
    entry_expiry, truthy, Disk.set, Disk.del. run.
  destruct (Table.insert it (db w)) as [[it' d']|]; [|done].
  destruct ttl as [x|]; simpl; [|done]. by destruct (x =? 0).
Qed.

Lemma update_item_run (i : Z) (update_data : item) (w : world) :
  update_item model_name ttl i update_data w =
  match Table.get i (db w) with
  | None => (Raise (HTTPException HTTP_404_NOT_FOUND), w)
  | Some it =>
      let it' := apply_update update_data it in
      match Table.update i it' (db w) with
      | None => (Raise IntegrityError, w)
      | Some d' =>
          (Ok (RBody (CItem it')),
           World d'
             (<[key_id model_name i := Stored (CItem it') (entry_expiry ttl (now w))]>
                (delete (key_count model_name)
                   (delete (key_all model_name)
                      (delete (key_id model_name i) (cache w)))))
             (sessions w) (now w) (log w))
      end
  end.
Proof.
  unfold update_item, _invalidate_all_cache, _delete_cache, _set_cache,
    entry_expiry, truthy, Disk.set, Disk.del. run.
  destruct (Table.get i (db w)) as [it|]; [|done].
  destruct (Table.update i (apply_update update_data it) (db w)) as [d'|]; [|done].
  destruct ttl as [x|]; simpl; [|done]. by destruct (x =? 0).
Qed.

Lemma delete_item_run (i : Z) (w : world) :
  delete_item model_name i w =
  match Table.get i (db w) with
  | None => (Raise (HTTPException HTTP_404_NOT_FOUND), w)
  | Some _ =>
      (Ok RNone,
       World (Table.remove i (db w))
         (delete (key_count model_name)
            (delete (key_all model_name)
               (delete (key_id model_name i) (cache w))))
         (sessions w) (now w) (log w))
  end.
Proof.
  unfold delete_item, _invalidate_all_cache, _delete_cache. run.
  by destruct (Table.get i (db w)).
Qed.

(** *** Coherence *)

(** A step keeps the selected entries coherent when each of them that it
    leaves either was there before, over a row the step did not touch, or
    is a snapshot of the row now stored. *)
Lemma coherent_step (P : stored cval → Prop) (w w' : world) :
  coherent_on P model_name w →
  (∀ j e, cache w' !! key_id model_name j = Some e → P e →
     (cache w !! key_id model_name j = Some e
      ∧ Table.get j (db w') = Table.get j (db w))
     ∨ (∃ it, s_val e = CItem it ∧ Table.get j (db w') = Some it)) →
  coherent_on P model_name w'.
Proof.
  intros Hw H j e He HP. destruct (H j e He HP) as [[Hold Hget]|Hnew]; [|done].
  destruct (Hw j e Hold HP) as (it & Hv & Hit). exists it. by rewrite Hget.
Qed.

Lemma lookup_delete_Some_inv {A} (k k' : string) (m : gmap string A) (x : A) :
  delete k m !! k' = Some x → k' ≠ k ∧ m !! k' = Some x.
Proof. rewrite lookup_delete_Some. by intros [? ?]. Qed.

Lemma coherent_read_item (P : stored cval → Prop) (i : Z) (w : world) :
  coherent_on P model_name w → coherent_on P model_name (snd (read_item model_name ttl i w)).
Proof.
  intros Hw.
  destruct (Disk.get (now w) (key_id model_name i) (cache w)) as [v|] eqn:Hg.
  { by rewrite (read_item_hit _ _ _ Hg). }
  destruct (Table.get i (db w)) as [it|] eqn:Hit.
  2:{ by rewrite (read_item_miss_absent _ _ Hg Hit). }
  rewrite (read_item_miss _ _ _ Hg Hit). simpl.
  apply (coherent_step P w); [done|]. simpl. intros j e He HP.
  destruct (decide (key_id model_name j = key_id model_name i)) as [Heq|Hne].
  - right. rewrite Heq, lookup_insert_eq in He. injection He as <-.
    apply key_id_inj in Heq as ->. by exists it.
  - left. by rewrite lookup_insert_ne in He.
Qed.

Lemma read_items_invalid (skip limit : Z) (w : world) :
  ¬ (0 ≤ skip ∧ 1 ≤ limit ≤ 1000) →
  read_items model_name ttl skip limit w
  = (Raise (HTTPException HTTP_422_UNPROCESSABLE), w).
Proof.
  intros Hbad. unfold read_items.
  destruct (Z.leb_spec 0 skip), (Z.leb_spec 1 limit), (Z.leb_spec limit 1000);
    simpl; try done; lia.
Qed.

Lemma coherent_read_items (P : stored cval → Prop) (skip limit : Z) (w : world) :
  coherent_on P model_name w →
  coherent_on P model_name (snd (read_items model_name ttl skip limit w)).
Proof.
  intros Hw.
  destruct (decide (0 ≤ skip ∧ 1 ≤ limit ≤ 1000)) as [[Hs Hl]|Hbad].
  2:{ by rewrite (read_items_invalid _ _ _ Hbad). }
  destruct (Disk.get (now w) (key_page model_name skip limit) (cache w)) as [v|] eqn:Hg.
  { by rewrite (read_items_hit _ _ _ _ Hs Hl Hg). }
  rewrite (read_items_miss _ _ _ Hs Hl Hg). simpl.
  apply (coherent_step P w); [done|]. simpl. intros j e He HP. left.
  rewrite lookup_insert_ne in He; [done|].
  intros E. by apply (key_id_ne_page j skip limit).
Qed.

Lemma coherent_count_items (P : stored cval → Prop) (w : world) :
  coherent_on P model_name w → coherent_on P model_name (snd (count_items model_name ttl w)).
Proof.
  intros Hw.
  destruct (Disk.get (now w) (key_count model_name) (cache w)) as [v|] eqn:Hg.
  { by rewrite (count_items_hit _ _ Hg). }
  rewrite (count_items_miss _ Hg). simpl.
  apply (coherent_step P w); [done|]. simpl. intros j e He HP. left.
  rewrite lookup_insert_ne in He; [done|].
  intros E. by apply (key_id_ne_count j).
Qed.

Lemma coherent_create_item (P : stored cval → Prop) (it : item) (w : world) :
  coherent_on P model_name w → coherent_on P model_name (snd (create_item model_name ttl it w)).
Proof.
  intros Hw. rewrite create_item_run.
  destruct (Table.insert it (db w)) as [[it' d']|] eqn:Hins; [|done].
  destruct (TableFacts.insert_Some _ _ _ _ Hins) as (i & -> & Hfree & -> & _).
  rewrite (key_of_id (<["id" := VInt i]> it) i) by apply lookup_insert_eq.
  apply (coherent_step P w); [done|]. simpl. intros j e He HP.
  destruct (decide (key_id model_name j = key_id model_name i)) as [Heq|Hne].
  - right. rewrite Heq, lookup_insert_eq in He. injection He as <-.
    apply key_id_inj in Heq as ->. eexists. split; [done|].
    by apply TableFacts.get_after_insert.
  - left. rewrite lookup_insert_ne in He by done.
    apply lookup_delete_Some_inv in He as [_ He].
    apply lookup_delete_Some_inv in He as [_ He].
    apply lookup_delete_Some_inv in He as [_ He].
    split; [done|]. destruct (Hw j e He HP) as (r & _ & Hr).
    by rewrite TableFacts.get_app, Hr.
Qed.

Lemma coherent_update_item (P : stored cval → Prop) (i : Z) (update_data : item) (w : world) :
  (∀ v, update_data !! "id" = Some v → v = VInt i) →
  coherent_on P model_name w →
  coherent_on P model_name (snd (update_item model_name ttl i update_data w)).
Proof.
  intros Hkeep Hw. rewrite update_item_run.
  destruct (Table.get i (db w)) as [it|] eqn:Hit; [|done]. cbv zeta.
  set (m := apply_update update_data it).
  assert (m !! "id" = Some (VInt i)) as Hid.
  { unfold m. rewrite apply_update_lookup.
    destruct (update_data !! "id") as [v|] eqn:Hv.
    - by rewrite (Hkeep v eq_refl).
    - by apply TableFacts.get_Some in Hit as [_ ?]. }
  unfold Table.update. rewrite Hid, bool_decide_eq_true_2 by done.
  apply (coherent_step P w); [done|]. simpl. intros j e He HP.
  destruct (decide (key_id model_name j = key_id model_name i)) as [Heq|Hne].
  - right. rewrite Heq, lookup_insert_eq in He. injection He as <-.
    apply key_id_inj in Heq as ->. exists m. split; [done|].
    apply TableFacts.get_replace_same; [by rewrite Hit | done].
  - left. rewrite lookup_insert_ne in He by done.
    apply lookup_delete_Some_inv in He as [_ He].
    apply lookup_delete_Some_inv in He as [_ He].
    apply lookup_delete_Some_inv in He as [_ He].
    split; [done|]. apply TableFacts.get_replace_other.
    + intros ->. by apply Hne.
    + rewrite Hid. intros [= ->]. by apply Hne.
Qed.

Lemma coherent_delete_item (P : stored cval → Prop) (i : Z) (w : world) :
  coherent_on P model_name w → coherent_on P model_name (snd (delete_item model_name i w)).
Proof.
  intros Hw. rewrite delete_item_run.
  destruct (Table.get i (db w)) as [it|] eqn:Hit; [|done].
  apply (coherent_step P w); [done|]. simpl. intros j e He HP. left.
  apply lookup_delete_Some_inv in He as [_ He].
  apply lookup_delete_Some_inv in He as [_ He].
  apply lookup_delete_Some_inv in He as [Hne He].
  split; [done|]. rewrite TableFacts.get_remove.
  rewrite bool_decide_eq_false_2; [done|]. intros ->. by apply Hne.
Qed.

(** *** The bulk writes *)

Lemma table_get_app (i : Z) (d1 d2 : list item) :
  Table.get i (d1 ++ d2) =
  match Table.get i d1 with
  | Some r => Some r
  | None => Table.get i d2
  end.
Proof.
  unfold Table.get. induction d1 as [|r d1 IH]; simpl; [done|].
  by destruct (Table.has_id i r).
Qed.

(** A successful bulk insert appends the refreshed items; each carries an
    integer id that was free before and now finds that very item. *)
Lemma insert_all_Some (items items' : list item) (d d' : list item) :
  Table.insert_all items d = Some (items', d') →
  d' = d ++ items'
  ∧ Forall2 (λ it it', ∃ i, it' = <["id" := VInt i]> it) items items'
  ∧ ∀ it', it' ∈ items' →
      ∃ i, it' !! "id" = Some (VInt i)
           ∧ Table.get i d = None ∧ Table.get i d' = Some it'.
Proof.
  revert items' d d'. induction items as [|x items IH]; intros items' d d' H; simpl in H.
  - injection H as <- <-. rewrite app_nil_r. split; [done|]. split; [constructor|].
    intros it' Hit. by apply elem_of_nil in Hit.
  - destruct (Table.insert x d) as [[x' d1]|] eqn:Hx; [|done].
    destruct (Table.insert_all items d1) as [[its d2]|] eqn:Hrest; [|done].
    injection H as <- <-.
    destruct (TableFacts.insert_Some _ _ _ _ Hx) as (i & -> & Hfree & -> & _).
    destruct (IH its _ _ Hrest) as (-> & Hall & Hits).
    split; [by rewrite <- app_assoc|]. split; [constructor; eauto|].
    intros it' [->|Hit]%elem_of_cons.
    + exists i. split; [apply lookup_insert_eq|]. split; [done|].
      rewrite table_get_app. by rewrite TableFacts.get_after_insert.
    + destruct (Hits it' Hit) as (j & Hj & Hnone & Hsome).
      exists j. split; [done|]. split; [|done].
      rewrite TableFacts.get_app in Hnone. by destruct (Table.get j d).
Qed.

Lemma for_each_cons {A} (x : A) (l : list A) (body : A → M unit) (w : world) :
  for_each (x :: l) body w =
  match body x w with
  | (Ok _, w') => for_each l body w'
  | (Raise e, w') => (Raise e, w')
  end.
Proof. reflexivity. Qed.

Lemma recache_one (it : item) (w : world) :
  (_delete_cache (key_of model_name it);;
   _set_cache ttl (key_of model_name it) (CItem it) true) w
  = (Ok tt,
     set_cache (<[key_of model_name it := Stored (CItem it) (entry_expiry ttl (now w))]>
                  (delete (key_of model_name it) (cache w))) w).
Proof.
  unfold mbind, M_bind, _delete_cache, modify. cbv beta iota.
  by rewrite set_cache_true.
Qed.

(** The loop that re-caches a list of refreshed entities changes nothing
    but the cache, and an entry the cache holds afterwards is either an
    old one under a key of none of them or a snapshot of one of them under
    its key. *)
Lemma recache_run (l : list item) :
  (∀ it, it ∈ l → ∃ i, it !! "id" = Some (VInt i)) →
  ∀ w, ∃ w',
    for_each l (λ it,
      _delete_cache (key_of model_name it);;
      _set_cache ttl (key_of model_name it) (CItem it) true) w = (Ok tt, w')
    ∧ db w' = db w ∧ sessions w' = sessions w ∧ now w' = now w ∧ log w' = log w
    ∧ ∀ k e, cache w' !! k = Some e →
        (cache w !! k = Some e ∧ ∀ it, it ∈ l → key_of model_name it ≠ k)
        ∨ (∃ it, it ∈ l ∧ k = key_of model_name it ∧ s_val e = CItem it).
Proof.
  induction l as [|it l IH]; intros Hids w.
  - exists w. run. repeat split; try done. intros k e He. left. split; [done|].
    intros it Hit. by apply elem_of_nil in Hit.
  - destruct (Hids it (list_elem_of_here _ _)) as [i Hi].
    set (w1 := set_cache (<[key_of model_name it :=
                  Stored (CItem it) (entry_expiry ttl (now w))]>
                  (delete (key_of model_name it) (cache w))) w).
    destruct (IH (λ x Hx, Hids x (list_elem_of_further _ _ _ Hx)) w1)
      as (w' & Hrun & Hdb & Hs & Hn & Hl & Hc).
    exists w'. split; [|repeat split; try done].
    + rewrite for_each_cons, recache_one. exact Hrun.
    + intros k e He. destruct (Hc k e He) as [[Hold Hne]|(it' & Hin & -> & Hv)].
      * simpl in Hold.
        destruct (decide (key_of model_name it = k)) as [<-|Hk].
        -- right. exists it. rewrite lookup_insert_eq in Hold. injection Hold as <-.
           split; [left|]. by split.
        -- left. rewrite lookup_insert_ne, lookup_delete_ne in Hold by done.
           split; [done|]. intros x [->|Hx]%elem_of_cons; [done | by apply Hne].
      * right. exists it'. split; [by right|]. by split.
Qed.

Lemma create_items_run (items items' : list item) (d' : list item) (w : world) :
  items ≠ [] →
  Table.insert_all items (db w) = Some (items', d') →
  ∃ c, create_items model_name ttl items w
       = (Ok (RBody (CList items')), World d' c (sessions w) (now w) (log w))
       ∧ c !! key_count model_name = None
       ∧ ∀ k e, c !! k = Some e →
           (cache w !! k = Some e ∧ ∀ it, it ∈ items' → key_of model_name it ≠ k)
           ∨ (∃ it, it ∈ items' ∧ k = key_of model_name it ∧ s_val e = CItem it).
Proof.
  intros Hne Hins.
  assert (∀ it, it ∈ items' → ∃ i, it !! "id" = Some (VInt i)) as Hids.
  { intros it Hit. apply insert_all_Some in Hins as (_ & _ & H).
    destruct (H it Hit) as (i & Hi & _). by exists i. }
  destruct (recache_run items' Hids (set_db d' w))
    as (w1 & Hrun & Hdb & Hs & Hn & Hl & Hc).
  exists (delete (key_count model_name) (delete (key_all model_name) (cache w1))).
  split; [|split].
  - unfold create_items. destruct items as [|x items]; [done|].
    unfold mbind at 1, M_bind at 1, gets at 1. rewrite Hins.
    unfold mbind at 1, M_bind at 1, modify at 1.
    unfold mbind at 1, M_bind at 1. rewrite Hrun.
    unfold _invalidate_all_cache, _delete_cache, Disk.del. run.
    destruct w1. simpl in *. by subst.
  - apply lookup_delete_eq.
  - intros k e He.
    apply lookup_delete_Some_inv in He as [_ He].
    apply lookup_delete_Some_inv in He as [_ He].
    exact (Hc k e He).
Qed.

(** A bulk create that fails leaves the world untouched. *)
Lemma create_items_fail (items : list item) (w : world) :
  items = [] ∨ Table.insert_all items (db w) = None →
  ∃ e, create_items model_name ttl items w = (Raise e, w).
Proof.
  intros [->|Hins].
  - by eexists.
  - destruct items as [|x items]; [by eexists|].
    unfold create_items. unfold mbind at 1, M_bind at 1, gets at 1.
    rewrite Hins. by eexists.
Qed.

Lemma coherent_create_items (P : stored cval → Prop) (items : list item) (w : world) :
  coherent_on P model_name w →
  coherent_on P model_name (snd (create_items model_name ttl items w)).
Proof.
  intros Hw.
  destruct (decide (items = [])) as [->|Hne]; [done|].
  destruct (Table.insert_all items (db w)) as [[items' d']|] eqn:Hins.
  2:{ destruct (create_items_fail items w (or_intror Hins)) as [e ->]. done. }
  destruct (create_items_run items items' d' w Hne Hins) as (c & -> & _ & Hc).
  destruct (insert_all_Some _ _ _ _ Hins) as (-> & _ & Hits).
  apply (coherent_step P w); [done|]. simpl. intros j e He HP.
  destruct (Hc _ _ He) as [[Hold _]|(it & Hin & Hk & Hv)].
  - left. split; [done|]. destruct (Hw j e Hold HP) as (r & _ & Hr).
    by rewrite table_get_app, Hr.
  - right. destruct (Hits it Hin) as (i & Hi & _ & Hget).
    rewrite (key_of_id it i Hi) in Hk. apply key_id_inj in Hk as ->.
    by exists it.
Qed.
Lemma replace_ids (i : Z) (it : item) (d : list item) :
  it !! "id" = Some (VInt i) →
  (λ r : item, r !! "id") <$> Table.replace i it d = (λ r : item, r !! "id") <$> d.
Proof.
  intros Hid. induction d as [|r d IH]; [done|]. simpl Table.replace.
  destruct (Table.has_id i r) eqn:Hr; rewrite !fmap_cons.
  - apply TableFacts.has_id_true in Hr. by rewrite Hid, Hr.
  - by rewrite IH.
Qed.

(** Whether a key is taken depends only on the table's column of ids. *)
Lemma get_is_Some (i : Z) (d : list item) :
  is_Some (Table.get i d) ↔ Some (VInt i) ∈ (λ r : item, r !! "id") <$> d.
Proof.
  rewrite list_elem_of_fmap. split.
  - intros [r Hr]. apply TableFacts.get_Some in Hr as [Hin Hid]. by exists r.
  - intros (r & Hid & Hin). destruct (Table.get i d) eqn:Hg; [by eexists|].
    exfalso. by apply (proj1 (TableFacts.get_None i d) Hg r Hin).
Qed.

Lemma get_None_ids (i : Z) (d d' : list item) :
  (λ r : item, r !! "id") <$> d' = (λ r : item, r !! "id") <$> d →
  Table.get i d = None → Table.get i d' = None.
Proof.
  intros Hids Hn. destruct (Table.get i d') as [r|] eqn:Hr; [|done].
  assert (is_Some (Table.get i d)) as [? ?]; [|congruence].
  apply get_is_Some. rewrite <- Hids. apply get_is_Some. by rewrite Hr.
Qed.

(** Applying an entry never touches [id]. *)
Lemma apply_entry_id (data : dict) :
  ∀ (it it' : item),
  apply_entry non_field data it = inr it' → it' !! "id" = it !! "id".
Proof.
  induction data as [|[key v] rest IH]; intros it it' H; simpl in H.
  - by injection H as <-.
  - destruct (bool_decide (key ≠ "id") && hasattr non_field it key) eqn:Hc.
    + apply andb_true_iff in Hc as [Hid%bool_decide_eq_true _].
      unfold setattr_any in H. destruct (it !! key); [|done].
      rewrite (IH _ _ H). unfold setattr. by rewrite lookup_insert_ne.
    + by apply IH.
Qed.

(** An entry none of whose keys names an attribute that is no field is
    applied in full. *)
Lemma apply_entry_total (data : dict) (it : item) :
  (∀ k, k ∈ data.*1 → k ≠ "id" → non_field k = None) →
  ∃ it', apply_entry non_field data it = inr it'.
Proof.
  intros Hno. destruct (apply_entry non_field data it) as [e|it'] eqn:H.
  - apply apply_entry_inl in H as (k & Hk & Hid & _ & He).
    rewrite (Hno k Hk Hid) in He. done.
  - by exists it'.
Qed.

(** What [session.get] answers inside the loop: it changes nothing, raises
    nothing but [IntegrityError], the row it returns is the one the session
    holds under a key the entry's id names, and it returns none when the
    entry's id finds nothing. *)
Lemma session_get_spec (data : dict) (flushed sess : list item) (held : list Z)
    (w : world) :
  match session_get engine (Dict.get data "id") flushed sess held w with
  | (Ok (flushed', found), w') =>
      w' = w
      ∧ (flushed' = flushed ∨ flushed' = sess)
      ∧ (∀ i it, found = Some (i, it) →
           Table.get i sess = Some it ∧ names engine data i)
      ∧ (finds_nothing engine data sess → found = None)
  | (Raise e, w') => w' = w ∧ e = IntegrityError
  end.
Proof.
  unfold session_get, identity, names, finds_nothing, Table.get_pk.
  destruct (Dict.get data "id") as [[|b|n|s]|] eqn:Hpk; simpl.
  - destruct (flushes engine flushed sess); run; [|done].
    split; [done|]. split; [by right|]. by split.
  - case_bool_decide as Hin; run.
    + split; [done|]. split; [by left|]. split.
      * intros i it. destruct (Table.get (Z.b2z b) sess) as [r|] eqn:Hr; [|done].
        simpl. intros [= <- <-]. split; [done|]. right. by exists b.
      * intros [_ Hb]. by rewrite (Hb b eq_refl).
    + destruct (flushes engine flushed sess); run; [|done].
      split; [done|]. split; [by right|]. split.
      * intros i it. destruct (pk_of engine (VBool b)) as [j|]; [|done].
        destruct (Table.get j sess) as [r|] eqn:Hr; [|done].
        simpl. intros [= <- <-]. split; [done|]. by left.
      * by intros [-> _].
  - case_bool_decide as Hin; run.
    + split; [done|]. split; [by left|]. split.
      * intros i it. destruct (Table.get n sess) as [r|] eqn:Hr; [|done].
        simpl. intros [= <- <-]. split; [done|]. by left.
      * by intros [-> _].
    + destruct (flushes engine flushed sess); run; [|done].
      split; [done|]. split; [by right|]. split.
      * intros i it. destruct (Table.get n sess) as [r|] eqn:Hr; [|done].
        simpl. intros [= <- <-]. split; [done|]. by left.
      * by intros [-> _].
  - destruct (flushes engine flushed sess); run; [|done].
    split; [done|]. split; [by right|]. split.
    + intros i it. destruct (pk_of engine (VStr s)) as [j|]; [|done].
      destruct (Table.get j sess) as [r|] eqn:Hr; [|done].
      simpl. intros [= <- <-]. split; [done|]. by left.
    + by intros [-> _].
  - destruct (flushes engine flushed sess); run; [|done].
    split; [done|]. split; [by right|]. by split.
Qed.

Lemma finds_nothing_ids (data : dict) (d d' : list item) :
  (λ r : item, r !! "id") <$> d' = (λ r : item, r !! "id") <$> d →
  finds_nothing engine data d → finds_nothing engine data d'.
Proof.
  intros Hids [Hpk Hb]. split.
  - unfold Table.get_pk in *.
    destruct (Dict.get data "id" ≫= Table.key_of_value engine) as [i|]; [|done].
    destruct (Table.get i d) eqn:Hi; [done|].
    by rewrite (get_None_ids i d d' Hids Hi).
  - intros b Hd. apply (get_None_ids _ d d' Hids). by apply Hb.
Qed.

(** The loop of [update_items] touches only the session and the log,
    whether it returns or raises.  When it returns, it has kept the
    column of ids as it is, edited only rows it records as updated,
    recorded only ids the table held and an entry names, and warned about
    every entry whose id finds nothing.  When it raises, the exception is
    the engine's refusal of a flush or the one that assigning to an
    attribute that is no field raises. *)
Lemma update_loop_spec (items_data : list dict) :
  ∀ (flushed sess : list item) (updated : list Z) (w : world),
  match update_loop engine non_field items_data flushed sess updated w with
  | (Ok (flushed', sess', updated'), w') =>
      db w' = db w ∧ cache w' = cache w ∧ sessions w' = sessions w ∧ now w' = now w
      ∧ (∀ e, e ∈ log w → e ∈ log w')
      ∧ ∃ new,
          updated' = updated ++ new
          ∧ (λ r : item, r !! "id") <$> sess' = (λ r : item, r !! "id") <$> sess
          ∧ (∀ j, j ∉ new → Table.get j sess' = Table.get j sess)
          ∧ (∀ i, i ∈ new → is_Some (Table.get i sess))
          ∧ (∀ data, data ∈ items_data → finds_nothing engine data sess →
               (WARNING, not_found_msg (py_str (default VNone (Dict.get data "id"))))
               ∈ log w')
          ∧ (∀ i, i ∈ new → ∃ data, data ∈ items_data ∧ names engine data i)
  | (Raise e, w') =>
      db w' = db w ∧ cache w' = cache w ∧ sessions w' = sessions w ∧ now w' = now w
      ∧ (∀ e, e ∈ log w → e ∈ log w')
      ∧ (e = IntegrityError ∨ ∃ k, non_field k = Some e)
  end.
Proof.
  induction items_data as [|data rest IH]; intros flushed sess updated w.
  - simpl. run. repeat split; try done. exists []. rewrite app_nil_r.
    repeat split; try done.
    + intros i Hi. by apply elem_of_nil in Hi.
    + intros data Hd. by apply elem_of_nil in Hd.
    + intros i Hi. by apply elem_of_nil in Hi.
  - cbn [update_loop]. unfold mbind at 1, M_bind at 1.
    pose proof (session_get_spec data flushed sess updated w) as Hget.
    destruct (session_get engine (Dict.get data "id") flushed sess updated w)
      as [[[fl found]|e] w1].
    2:{ destruct Hget as [-> ->]. repeat split; try done. by left. }
    destruct Hget as (-> & _ & Hfound & Hnothing).
    destruct found as [[i it]|].
    + destruct (Hfound i it eq_refl) as [Hit Hnames].
      destruct (apply_entry non_field data it) as [e|it'] eqn:Happ.
      { apply apply_entry_inl in Happ as (k & _ & _ & _ & He).
        unfold raise. repeat split; try done. right. by exists k. }
      assert (it' !! "id" = Some (VInt i)) as Hid.
      { rewrite (apply_entry_id _ _ _ Happ).
        by apply TableFacts.get_Some in Hit as [_ ?]. }
      specialize (IH fl (Table.replace i it' sess) (updated ++ [i]) w).
      destruct (update_loop engine non_field rest fl (Table.replace i it' sess)
                  (updated ++ [i]) w) as [[[[fl2 s2] u2]|e2] w2]; [|done].
      destruct IH as (Hdb & Hc & Hs & Hn & Hlog & new & -> & Hids & Hframe & Hnew
                      & Hwarn & Hnamed).
      split; [done|]. split; [done|]. split; [done|]. split; [done|]. split; [done|].
      exists (i :: new). rewrite <- app_assoc. split; [done|].
      split; [by rewrite Hids, replace_ids|]. split; [|split; [|split]].
      * intros j Hj. rewrite Hframe by (intros ?; apply Hj; by right).
        apply TableFacts.get_replace_other.
        -- intros ->. apply Hj. by left.
        -- rewrite Hid. intros [= ->]. apply Hj. by left.
      * intros j [->|Hj]%elem_of_cons; [by rewrite Hit|].
        apply get_is_Some. rewrite <- (replace_ids i it' sess Hid).
        apply get_is_Some. by apply Hnew.
      * intros x [->|Hx]%elem_of_cons Hnone.
        -- by specialize (Hnothing Hnone).
        -- apply Hwarn; [done|].
           apply (finds_nothing_ids x sess); [by apply replace_ids | done].
      * intros j [->|Hj]%elem_of_cons.
        -- exists data. split; [left | done].
        -- destruct (Hnamed j Hj) as (x & Hx & Hxd). exists x. split; [by right | done].
    + unfold mbind at 1, M_bind at 1, logger_warning at 1, modify at 1.
      set (w1 := add_log WARNING
             (not_found_msg (py_str (default VNone (Dict.get data "id")))) w).
      specialize (IH fl sess updated w1).
      destruct (update_loop engine non_field rest fl sess updated w1)
        as [[[[fl2 s2] u2]|e2] w2].
      * destruct IH as (Hdb & Hc & Hs & Hn & Hlog & new & -> & Hids & Hframe & Hnew
                        & Hwarn & Hnamed).
        split; [done|]. split; [done|]. split; [done|]. split; [done|].
        split; [intros e He; apply Hlog, elem_of_app; by left|].
        exists new. split; [done|]. split; [done|]. split; [done|]. split; [done|].
        split.
        -- intros x [->|Hx]%elem_of_cons Hnone; [|by apply Hwarn].
           apply Hlog. apply elem_of_app. right. by left.
        -- intros j Hj. destruct (Hnamed j Hj) as (x & Hx & Hxd).
           exists x. split; [by right | done].
      * destruct IH as (Hdb & Hc & Hs & Hn & Hlog & He).
        split; [done|]. split; [done|]. split; [done|]. split; [done|].
        split; [intros e He'; apply Hlog, elem_of_app; by left | done].
Qed.

(** With an engine that refuses nothing and entries that name no
    attribute that is no field, the loop returns. *)
Lemma update_loop_total (items_data : list dict) :
  (∀ d d', accepts engine d d' = true) →
  (∀ data k, data ∈ items_data → k ∈ data.*1 → k ≠ "id" → non_field k = None) →
  ∀ (flushed sess : list item) (updated : list Z) (w : world),
  ∃ out w', update_loop engine non_field items_data flushed sess updated w
            = (Ok out, w').
Proof.
  intros Hacc. induction items_data as [|data rest IH];
    intros Hno flushed sess updated w.
  - by eexists _, _.
  - cbn [update_loop]. unfold mbind at 1, M_bind at 1. unfold session_get.
    assert (flushes engine flushed sess = true) as Hfl.
    { unfold flushes. rewrite Hacc. apply orb_true_r. }
    assert (∀ data' k, data' ∈ rest → k ∈ data'.*1 → k ≠ "id" →
              non_field k = None) as Hrest.
    { intros data' k Hd. apply (Hno data' k). by right. }
    assert (∀ fl (found : option (Z * item)),
      ∃ out w',
        match found with
        | Some (i, it) =>
            match apply_entry non_field data it with
            | inl e => raise e
            | inr it' =>
                update_loop engine non_field rest fl (Table.replace i it' sess)
                  (updated ++ [i])
            end
        | None =>
            logger_warning
              (not_found_msg (py_str (default VNone (Dict.get data "id"))));;
            update_loop engine non_field rest fl sess updated
        end w = (Ok out, w')) as Hstep.
    { intros fl [[i it]|].
      - destruct (apply_entry_total data it) as [it' ->].
        + intros k Hk Hid. apply (Hno data k); [left | done | done].
        + apply IH. exact Hrest.
      - unfold mbind, M_bind, logger_warning, modify. apply IH. exact Hrest. }
    destruct (identity (Dict.get data "id") updated) as [i|].
    + unfold mret, M_ret. apply Hstep.
    + rewrite Hfl. unfold mret, M_ret. apply Hstep.
Qed.

(** [update_items] rejects an empty batch and a batch with an entry that
    has no [id]. *)
Lemma update_items_invalid (items_data : list dict) (w : world) :
  items_data = [] ∨ (∃ data, data ∈ items_data ∧ "id" ∉ data.*1) →
  update_items engine model_name non_field ttl items_data w
  = (Raise (HTTPException HTTP_400_BAD_REQUEST), w).
Proof.
  intros [->|(data & Hin & Hd)]; [done|].
  unfold update_items. destruct items_data as [|x l]; [done|].
  assert (existsb (λ data, negb (Dict.contains data "id")) (x :: l) = true)
    as ->; [|done].
  apply existsb_exists. exists data. split; [by apply list_elem_of_In|].
  rewrite dict_contains_id. by rewrite bool_decide_eq_false_2.
Qed.

(** A batch is either rejected at once or has an [id] in every entry. *)
Lemma update_items_batch (items_data : list dict) :
  (items_data = [] ∨ ∃ data, data ∈ items_data ∧ "id" ∉ data.*1)
  ∨ (items_data ≠ [] ∧ ∀ data, data ∈ items_data → "id" ∈ data.*1).
Proof.
  destruct (decide (items_data = [])) as [->|Hne]; [left; by left|].
  destruct (existsb (λ data : dict, negb (bool_decide ("id" ∈ data.*1))) items_data)
    eqn:Hex.
  - left. right. apply existsb_exists in Hex as (data & Hin & Hd).
    exists data. split; [by apply list_elem_of_In|].
    apply negb_true_iff in Hd. by apply bool_decide_eq_false in Hd.
  - right. split; [done|]. intros data Hin.
    destruct (decide ("id" ∈ data.*1)) as [|Hn]; [done|]. exfalso.
    assert (existsb (λ data : dict, negb (bool_decide ("id" ∈ data.*1))) items_data
            = true) as Hex'; [|congruence].
    apply existsb_exists. exists data. split; [by apply list_elem_of_In|].
    by rewrite bool_decide_eq_false_2.
Qed.

(** The commit: refused, it raises and leaves the world alone; accepted, it
    publishes the session's table, re-caches the refreshed items and
    invalidates. *)
Lemma update_items_commit_run (flushed d' : list item) (updated : list Z)
    (w0 : world) :
  let refreshed := omap (λ i, Table.get i d') updated in
  if flushes engine flushed d'
  then
    ∃ c, update_items_commit engine model_name ttl flushed d' updated w0
         = (Ok (RBody (CList refreshed)),
            World d' c (sessions w0) (now w0) (log w0))
         ∧ c !! key_count model_name = None
         ∧ ∀ k e, c !! k = Some e →
             (cache w0 !! k = Some e
              ∧ ∀ it, it ∈ refreshed → key_of model_name it ≠ k)
             ∨ (∃ it, it ∈ refreshed ∧ k = key_of model_name it ∧ s_val e = CItem it)
  else
    update_items_commit engine model_name ttl flushed d' updated w0
    = (Raise IntegrityError, w0).
Proof.
  intros refreshed. unfold update_items_commit.
  destruct (flushes engine flushed d'); [|done].
  assert (∀ it, it ∈ refreshed → ∃ i, it !! "id" = Some (VInt i)) as Hids.
  { intros it (i & _ & Hit)%list_elem_of_omap. exists i.
    by apply TableFacts.get_Some in Hit as [_ ?]. }
  destruct (recache_run refreshed Hids (set_db d' w0))
    as (w1 & Hrun & Hdb1 & Hs1 & Hn1 & Hl1 & Hc1).
  exists (delete (key_count model_name) (delete (key_all model_name) (cache w1))).
  split; [|split].
  - unfold mbind at 1, M_bind at 1, modify at 1.
    unfold mbind at 1, M_bind at 1. fold refreshed. rewrite Hrun.
    unfold _invalidate_all_cache, _delete_cache, Disk.del. run.
    destruct w1. simpl in *. by subst.
  - apply lookup_delete_eq.
  - intros k e He.
    apply lookup_delete_Some_inv in He as [_ He].
    apply lookup_delete_Some_inv in He as [_ He].
    exact (Hc1 k e He).
Qed.

(** A batch that passes validation: what [update_items] returns, and what
    it leaves when it raises. *)
Lemma update_items_outcome (items_data : list dict) (w : world) :
  items_data ≠ [] →
  (∀ data, data ∈ items_data → "id" ∈ data.*1) →
  match update_items engine model_name non_field ttl items_data w with
  | (Ok r, w') =>
      ∃ fl d' new w0 c,
        update_loop engine non_field items_data (db w) (db w) [] w
        = (Ok (fl, d', new), w0)
        ∧ r = RBody (CList (omap (λ i, Table.get i d') new))
        ∧ w' = World d' c (sessions w) (now w) (log w0)
        ∧ c !! key_count model_name = None
        ∧ ∀ k e, c !! k = Some e →
            (cache w !! k = Some e
             ∧ ∀ it, it ∈ omap (λ i, Table.get i d') new → key_of model_name it ≠ k)
            ∨ (∃ it, it ∈ omap (λ i, Table.get i d') new
                     ∧ k = key_of model_name it ∧ s_val e = CItem it)
  | (Raise e, w') =>
      db w' = db w ∧ cache w' = cache w ∧ sessions w' = sessions w ∧ now w' = now w
      ∧ (∀ x, x ∈ log w → x ∈ log w')
      ∧ (e = IntegrityError ∨ ∃ k, non_field k = Some e)
  end.
Proof.
  intros Hne Hall. rewrite (update_items_valid items_data w Hne Hall).
  pose proof (update_loop_spec items_data (db w) (db w) [] w) as Hloop.
  destruct (update_loop engine non_field items_data (db w) (db w) [] w)
    as [[[[fl d'] new]|e] w0]; [|done].
  destruct Hloop as (Hdb & Hc & Hs & Hn & Hlog & _).
  pose proof (update_items_commit_run fl d' new w0) as Hcommit. cbv zeta in Hcommit.
  destruct (flushes engine fl d').
  - destruct Hcommit as (c & -> & Hcount & Hcache).
    exists fl, d', new, w0, c. rewrite Hs, Hn. split; [done|]. split; [done|].
    split; [done|]. split; [done|]. intros k e He.
    destruct (Hcache k e He) as [[Hold Hk]|Hnew]; [left | by right].
    by rewrite Hc in Hold.
  - rewrite Hcommit. repeat split; try done. by left.
Qed.

Lemma coherent_on_ext (P : stored cval → Prop) (w w' : world) :
  db w' = db w → cache w' = cache w →
  coherent_on P model_name w → coherent_on P model_name w'.
Proof. intros Hd Hc Hw j e. rewrite Hd, Hc. apply Hw. Qed.

Lemma coherent_update_items (P : stored cval → Prop) (items_data : list dict)
    (w : world) :
  coherent_on P model_name w →
  coherent_on P model_name
    (snd (update_items engine model_name non_field ttl items_data w)).
Proof.
  intros Hw.
  destruct (update_items_batch items_data) as [Hbad|[Hne Hall]].
  { by rewrite update_items_invalid. }
  pose proof (update_items_outcome items_data w Hne Hall) as Hout.
  destruct (update_items engine model_name non_field ttl items_data w)
    as [[r|e] w'].
  2:{ destruct Hout as (Hdb & Hc & _). by apply (coherent_on_ext P w). }
  destruct Hout as (fl & d' & new & w0 & c & Hloop & -> & -> & _ & Hc).
  pose proof (update_loop_spec items_data (db w) (db w) [] w) as Hspec.
  rewrite Hloop in Hspec.
  destruct Hspec as (_ & _ & _ & _ & _ & new' & Hnew & Hids & Hframe & _).
  simpl in Hnew. subst new'.
  apply (coherent_step P w); [done|]. simpl. intros j e He HP.
  destruct (Hc _ _ He) as [[Hold Hk]|(it & Hin & Hk & Hv)].
  - left. split; [done|]. apply Hframe. intros Hj.
    destruct (Hw j e Hold HP) as (r & _ & Hr).
    destruct (Table.get j d') as [r'|] eqn:Hr'.
    + apply (Hk r').
      * apply list_elem_of_omap. by exists j.
      * apply key_of_id. by apply TableFacts.get_Some in Hr' as [_ ?].
    + assert (is_Some (Table.get j d')) as [? ?]; [|congruence].
      apply get_is_Some. rewrite Hids. apply get_is_Some. by rewrite Hr.
  - right. apply list_elem_of_omap in Hin as (i & _ & Hit).
    pose proof (TableFacts.get_Some _ _ _ Hit) as [_ Hid].
    rewrite (key_of_id it i Hid) in Hk. apply key_id_inj in Hk as ->.
    by exists it.
Qed.

Lemma delete_loop_cache_sub (ids : list Z) :
  ∀ (sess : list item) (pending : list Z) (c : Z) (w : world) (k : string)
    (e : stored cval),
    cache (snd (delete_loop model_name ids sess pending c w)) !! k = Some e →
    cache w !! k = Some e.
Proof.
  induction ids as [|i ids IH]; intros sess pending c w k e; simpl; [done|].
  destruct (bool_decide (i ∈ pending)).
  - unfold _delete_cache at 1. run. intros H%IH. simpl in H.
    by apply lookup_delete_Some_inv in H as [_ ?].
  - destruct (Table.get i (Table.flush_deleted pending sess)).
    + unfold _delete_cache at 1. run. intros H%IH. simpl in H.
      by apply lookup_delete_Some_inv in H as [_ ?].
    + run. intros H%IH. done.
Qed.

Lemma coherent_delete_items (P : stored cval → Prop) (ids : list Z) (w : world) :
  coherent_on P model_name w →
  coherent_on P model_name (snd (delete_items model_name ids w)).
Proof.
  intros Hw.
  destruct (decide (ids = [])) as [->|Hne]; [done|].
  destruct (delete_items_run ids w Hne) as (sess' & p' & c' & w1 & Hloop & ->).
  destruct (delete_loop_run ids (db w) [] 0 w)
    as (s2 & p2 & c2 & w2 & Hloop2 & _ & _ & _ & Hget & _ & _ & _ & Hdel).
  rewrite Hloop in Hloop2. injection Hloop2 as <- <- <- <-. simpl in Hget, Hdel.
  pose proof (delete_loop_cache_sub ids (db w) [] 0 w) as Hsub. rewrite Hloop in Hsub.
  apply (coherent_step P w); [done|].
  unfold _invalidate_all_cache, _delete_cache, Disk.del. run. intros j e He HP.
  apply lookup_delete_Some_inv in He as [_ He].
  apply lookup_delete_Some_inv in He as [_ He].
  left. split; [by apply Hsub|]. rewrite Hget.
  case_bool_decide as Hj; [|done]. exfalso.
  destruct (Hw j e (Hsub _ _ He) HP) as (r & _ & Hr).
  rewrite Hdel in He; [done | done | by rewrite Hr].
Qed.

(** *** What the handlers guarantee together *)

(** No handler moves the clock. *)
Lemma handlers_keep_now (w : world) :
  (∀ it, now (snd (create_item model_name ttl it w)) = now w)
  ∧ (∀ items, now (snd (create_items model_name ttl items w)) = now w)
  ∧ (∀ skip limit, now (snd (read_items model_name ttl skip limit w)) = now w)
  ∧ now (snd (count_items model_name ttl w)) = now w
  ∧ (∀ i, now (snd (read_item model_name ttl i w)) = now w)
  ∧ (∀ i update_data, now (snd (update_item model_name ttl i update_data w)) = now w)
  ∧ (∀ items_data,
       now (snd (update_items engine model_name non_field ttl items_data w)) = now w)
  ∧ (∀ i, now (snd (delete_item model_name i w)) = now w)
  ∧ (∀ ids, now (snd (delete_items model_name ids w)) = now w)
  ∧ (∀ data token,
       now (snd (login_route engine login_fields login_ttl data token w)) = now w)
  ∧ (∀ authorization, now (snd (logout_route authorization w)) = now w).
Proof.
  split; [|split; [|split; [|split; [|split; [|split; [|split; [|split; [|split;
    [|split]]]]]]]]].
  - intros it. rewrite create_item_run.
    by destruct (Table.insert it (db w)) as [[it' d']|].
  - intros items. destruct (decide (items = [])) as [->|Hne]; [done|].
    destruct (Table.insert_all items (db w)) as [[items' d']|] eqn:Hins.
    + by destruct (create_items_run items items' d' w Hne Hins) as (c & -> & _).
    + by destruct (create_items_fail items w (or_intror Hins)) as [e ->].
  - intros skip limit.
    destruct (decide (0 ≤ skip ∧ 1 ≤ limit ≤ 1000)) as [[Hs Hl]|Hbad].
    2:{ by rewrite (read_items_invalid _ _ _ Hbad). }
    destruct (Disk.get (now w) (key_page model_name skip limit) (cache w)) as [v|] eqn:Hg.
    + by rewrite (read_items_hit _ _ _ _ Hs Hl Hg).
    + by rewrite (read_items_miss _ _ _ Hs Hl Hg).
  - destruct (Disk.get (now w) (key_count model_name) (cache w)) as [v|] eqn:Hg.
    + by rewrite (count_items_hit _ _ Hg).
    + by rewrite (count_items_miss _ Hg).
  - intros i.
    destruct (Disk.get (now w) (key_id model_name i) (cache w)) as [v|] eqn:Hg.
    { by rewrite (read_item_hit _ _ _ Hg). }
    destruct (Table.get i (db w)) as [it|] eqn:Hit.
    + by rewrite (read_item_miss _ _ _ Hg Hit).
    + by rewrite (read_item_miss_absent _ _ Hg Hit).
  - intros i update_data. rewrite update_item_run.
    destruct (Table.get i (db w)) as [it|]; [|done]. cbv zeta.
    by destruct (Table.update i (apply_update update_data it) (db w)).
  - intros items_data.
    destruct (update_items_batch items_data) as [Hbad|[Hne Hall]].
    { by rewrite update_items_invalid. }
    pose proof (update_items_outcome items_data w Hne Hall) as Hout.
    destruct (update_items engine model_name non_field ttl items_data w)
      as [[r|e] w'].
    + by destruct Hout as (fl & d' & new & w0 & c & _ & _ & -> & _).
    + by destruct Hout as (_ & _ & _ & Hn & _).
  - intros i. rewrite delete_item_run. by destruct (Table.get i (db w)).
  - intros ids. destruct (decide (ids = [])) as [->|Hne]; [done|].
    destruct (delete_items_run ids w Hne) as (sess' & p' & c' & w1 & Hloop & ->).
    destruct (delete_loop_run ids (db w) [] 0 w)
      as (s2 & p2 & c2 & w2 & Hloop2 & _ & _ & Hn & _).
    rewrite Hloop in Hloop2. injection Hloop2 as <- <- <- <-.
    by unfold _invalidate_all_cache, _delete_cache.
  - intros data token. unfold login_route. run.
    by destruct (List.find (matches engine login_fields data) (db w)).
  - intros authorization. unfold logout_route.
    destruct (negb _); [done|]. run.
    by destruct (Disk.contains (now w) _ (sessions w)).
Qed.

Lemma coherent_at (w w' : world) :
  now w' = now w →
  coherent_on (λ e, Disk.alive (now w) e = true) model_name w' →
  coherent model_name w'.
Proof. unfold coherent. by intros ->. Qed.

(** X2.  Every handler keeps the live single-entity cache entries coherent
    with the table: if each live entry cached under the key of an id is a
    snapshot of the row stored under that id, the same holds after the
    handler has run, whether it returned or raised.  For [update_item]
    this needs a request that leaves the primary key alone. *)
Theorem handlers_keep_cache_coherent (w : world) :
  coherent model_name w →
  (∀ it, coherent model_name (snd (create_item model_name ttl it w)))
  ∧ (∀ items, coherent model_name (snd (create_items model_name ttl items w)))
  ∧ (∀ skip limit, coherent model_name (snd (read_items model_name ttl skip limit w)))
  ∧ coherent model_name (snd (count_items model_name ttl w))
  ∧ (∀ i, coherent model_name (snd (read_item model_name ttl i w)))
  ∧ (∀ i update_data, (∀ v, update_data !! "id" = Some v → v = VInt i) →
       coherent model_name (snd (update_item model_name ttl i update_data w)))
  ∧ (∀ items_data,
       coherent model_name
         (snd (update_items engine model_name non_field ttl items_data w)))
  ∧ (∀ i, coherent model_name (snd (delete_item model_name i w)))
  ∧ (∀ ids, coherent model_name (snd (delete_items model_name ids w)))
  ∧ (∀ data token,
       coherent model_name
         (snd (login_route engine login_fields login_ttl data token w)))
  ∧ (∀ authorization, coherent model_name (snd (logout_route authorization w))).
Proof.
  intros Hw.
  destruct (handlers_keep_now w)
    as (N1 & N2 & N3 & N4 & N5 & N6 & N7 & N8 & N9 & N10 & N11).
  split; [intros it; apply (coherent_at w); [done | by apply coherent_create_item]|].
  split; [intros items; apply (coherent_at w); [done | by apply coherent_create_items]|].
  split; [intros skip limit; apply (coherent_at w);
            [done | by apply coherent_read_items]|].
  split; [apply (coherent_at w); [done | by apply coherent_count_items]|].
  split; [intros i; apply (coherent_at w); [done | by apply coherent_read_item]|].
  split; [intros i update_data H; apply (coherent_at w);
            [done | by apply coherent_update_item]|].
  split; [intros items_data; apply (coherent_at w);
            [done | by apply coherent_update_items]|].
  split; [intros i; apply (coherent_at w); [done | by apply coherent_delete_item]|].
  split; [intros ids; apply (coherent_at w); [done | by apply coherent_delete_items]|].
  split.
  - intros data token. apply (coherent_at w); [done|]. unfold login_route. run.
    by destruct (List.find (matches engine login_fields data) (db w)).
  - intros authorization. apply (coherent_at w); [done|]. unfold logout_route.
    destruct (negb _); [done|]. run.
    by destruct (Disk.contains (now w) _ (sessions w)).
Qed.

Lemma read_item_of_coherent (P : stored cval → Prop) (i : Z) (w : world) :
  (∀ e, Disk.alive (now w) e = true → P e) →
  coherent_on P model_name w →
  fst (read_item model_name ttl i w) =
  match Table.get i (db w) with
  | Some it => Ok (RBody (CItem it))
  | None => Raise (HTTPException HTTP_404_NOT_FOUND)
  end.
Proof.
  intros HP Hw.
  destruct (Disk.get (now w) (key_id model_name i) (cache w)) as [v|] eqn:Hg.
  - rewrite (read_item_hit _ _ _ Hg). simpl. unfold Disk.get in Hg.
    destruct (cache w !! key_id model_name i) as [e|] eqn:He; [|done].
    destruct (Disk.alive (now w) e) eqn:Ha; [|done]. injection Hg as <-.
    destruct (Hw i e He (HP e Ha)) as (it & -> & ->). done.
  - destruct (Table.get i (db w)) as [it|] eqn:Hit.
    + by rewrite (read_item_miss _ _ _ Hg Hit).
    + by rewrite (read_item_miss_absent _ _ Hg Hit).
Qed.

(** X3.  In a world whose live entries are coherent [read_item] answers as
    the table would: it returns the row stored under the id, from the
    cache or from the table, and raises not-found exactly when the table
    holds no such row. *)
Theorem read_item_agrees_with_table (i : Z) (w : world) :
  coherent model_name w →
  fst (read_item model_name ttl i w) =
  match Table.get i (db w) with
  | Some it => Ok (RBody (CItem it))
  | None => Raise (HTTPException HTTP_404_NOT_FOUND)
  end.
Proof. intros Hw. by apply (read_item_of_coherent _ i w (λ e Ha, Ha)). Qed.

(** X4.  After any successful write, [count_items] returns the number of
    rows the table now holds, at whatever time it is called: no write
    leaves a cached count behind. *)
Theorem count_fresh_after_write (w w' : world) (r : response) :
  (∃ it, create_item model_name ttl it w = (Ok r, w'))
  ∨ (∃ items, create_items model_name ttl items w = (Ok r, w'))
  ∨ (∃ i update_data, update_item model_name ttl i update_data w = (Ok r, w'))
  ∨ (∃ items_data,
       update_items engine model_name non_field ttl items_data w = (Ok r, w'))
  ∨ (∃ i, delete_item model_name i w = (Ok r, w'))
  ∨ (∃ ids, delete_items model_name ids w = (Ok r, w')) →
  ∀ t, fst (count_items model_name ttl (set_now t w'))
       = Ok (RCount (CInt (Z.of_nat (length (db w'))))).
Proof.
  intros H t. destruct (writes_keep_pages 0 1 w w' r H) as [_ Hc].
  rewrite count_items_miss; [done|]. simpl. by apply disk_get_absent.
Qed.


(** X6.  [create_items] is all or nothing.  When it raises, the world is as
    it was.  When it returns, the table is the old one followed by the
    returned items, which are the submitted ones, in order, each with an
    integer id that was free before; and [read_item] of each of those ids
    returns that item at any later time. *)
Theorem create_items_all_or_nothing (items : list item) (w : world) :
  (∀ e w', create_items model_name ttl items w = (Raise e, w') → w' = w)
  ∧ (∀ r w', create_items model_name ttl items w = (Ok r, w') →
       ∃ items',
         r = RBody (CList items')
         ∧ db w' = db w ++ items'
         ∧ Forall2 (λ it it', ∃ i, it' = <["id" := VInt i]> it) items items'
         ∧ ∀ it', it' ∈ items' →
             ∃ i, it' !! "id" = Some (VInt i)
                  ∧ Table.get i (db w) = None
                  ∧ ∀ t, fst (read_item model_name ttl i (set_now t w'))
                         = Ok (RBody (CItem it'))).
Proof.
  destruct (decide (items = [])) as [->|Hne].
  { split; [by intros e w' [= _ <-] | by intros r w' [=]]. }
  destruct (Table.insert_all items (db w)) as [[items' d']|] eqn:Hins.
  2:{ destruct (create_items_fail items w (or_intror Hins)) as [e0 Hf].
      rewrite Hf. split; [by intros e w' [= _ <-] | by intros r w' [=]]. }
  destruct (create_items_run items items' d' w Hne Hins) as (c & Hrun & _ & Hc).
  rewrite Hrun. split; [by intros e w' [=]|]. intros r w' [= <- <-].
  destruct (insert_all_Some _ _ _ _ Hins) as (-> & Hall & Hits).
  exists items'. split; [done|]. split; [done|]. split; [done|].
  intros it' Hin. destruct (Hits it' Hin) as (i & Hi & Hfree & Hget).
  exists i. split; [done|]. split; [done|]. intros t.
  apply read_item_coherent; simpl; [done|]. intros e He.
  destruct (Hc _ _ He) as [[_ Hk]|(it & Hin' & Hk & Hv)].
  - destruct (Hk it' Hin). by apply key_of_id.
  - destruct (Hits it Hin') as (j & Hj & _ & Hgetj).
    rewrite (key_of_id it j Hj) in Hk. apply key_id_inj in Hk as ->.
    rewrite Hv. congruence.
Qed.


(** X10.  A page cached on a miss is served for exactly [ttl] seconds, and
    for ever when [ttl] is [None] or [0], whatever happens to the table in
    the meantime: until the entry expires [read_items] returns the page as
    it was when cached, and from then on the page of the table as it
    is. *)
Theorem page_served_until_expiry (skip limit : Z) (w : world) :
  0 ≤ skip → 1 ≤ limit ≤ 1000 →
  Disk.get (now w) (key_page model_name skip limit) (cache w) = None →
  let w1 := snd (read_items model_name ttl skip limit w) in
  let old := Ok (RBody (CList (Table.select skip limit (db w)))) in
  (∀ x d t, ttl = Some x → x ≠ 0 →
     (t < now w + x →
        fst (read_items model_name ttl skip limit (set_now t (set_db d w1))) = old)
     ∧ (now w + x ≤ t →
        fst (read_items model_name ttl skip limit (set_now t (set_db d w1)))
        = Ok (RBody (CList (Table.select skip limit d)))))
  ∧ (ttl = None ∨ ttl = Some 0 →
     ∀ d t, fst (read_items model_name ttl skip limit (set_now t (set_db d w1))) = old).
Proof.
  intros Hs Hl Hmiss w1 old. unfold w1.
  rewrite (read_items_miss _ _ _ Hs Hl Hmiss). simpl.
  set (page := CList (Table.select skip limit (db w))).
  split.
  - intros x d t Hx Hx0.
    assert (entry_expiry ttl (now w) = Some (now w + x)) as ->.
    { unfold entry_expiry. rewrite Hx. by rewrite (proj2 (Z.eqb_neq x 0) Hx0). }
    split; intros Ht.
    + rewrite read_items_hit with (v := page); [done | done | done |].
      simpl. unfold Disk.get. rewrite lookup_insert_eq. unfold Disk.alive. simpl.
      by rewrite (proj2 (Z.ltb_lt _ _) Ht).
    + rewrite read_items_miss; [done | done | done |].
      simpl. unfold Disk.get. rewrite lookup_insert_eq. unfold Disk.alive. simpl.
      by rewrite (proj2 (Z.ltb_ge _ _) Ht).
  - intros Httl d t.
    assert (entry_expiry ttl (now w) = None) as ->.
    { unfold entry_expiry. by destruct Httl as [-> | ->]. }
    rewrite read_items_hit with (v := page); [done | done | done |].
    simpl. unfold Disk.get. by rewrite lookup_insert_eq.
Qed.

Lemma coherent_serve (req : request) (w : world) :
  keeps_key req →
  coherent_on (λ _, True) model_name w →
  coherent_on (λ _, True) model_name (serve engine model_name non_field ttl req w).
Proof.
  intros Hk Hw. destruct req; simpl.
  - by apply coherent_create_item.
  - by apply coherent_create_items.
  - by apply coherent_read_items.
  - by apply coherent_count_items.
  - by apply coherent_read_item.
  - by apply coherent_update_item.
  - by apply coherent_update_items.
  - by apply coherent_delete_item.
  - by apply coherent_delete_items.
  - exact Hw.
Qed.

Lemma coherent_serve_all (reqs : list request) :
  ∀ w, Forall keeps_key reqs → coherent_on (λ _, True) model_name w →
       coherent_on (λ _, True) model_name
         (serve_all engine model_name non_field ttl reqs w).
Proof.
  induction reqs as [|req reqs IH]; intros w Hk Hw; [done|].
  apply Forall_cons in Hk as [Hreq Hk]. unfold serve_all. simpl.
  apply IH; [done|]. by apply coherent_serve.
Qed.

(** X13.  [read_item] is never stale.  Start from a world whose cache is
    empty and serve any sequence of CRUD requests, letting any time pass
    between them, as long as no single-item update changes a primary key:
    a [read_item] then returns the row the table holds under the id, and
    raises not-found exactly when it holds none. *)
Theorem read_item_never_stale (reqs : list request) (w : world) (i : Z) :
  cache w = ∅ →
  Forall keeps_key reqs →
  let w' := serve_all engine model_name non_field ttl reqs w in
  fst (read_item model_name ttl i w') =
  match Table.get i (db w') with
  | Some it => Ok (RBody (CItem it))
  | None => Raise (HTTPException HTTP_404_NOT_FOUND)
  end.
Proof.
  intros Hc Hk w'. apply (read_item_of_coherent (λ _, True)); [done|].
  apply coherent_serve_all; [done|].
  intros j e He. by rewrite Hc, lookup_empty in He.
Qed.

(** *** Sessions *)

Lemma all_hex_app (a b : string) :
  all_hex (a +:+ b) = all_hex a && all_hex b.
Proof.
  induction a as [|c a IH]; simpl; [done|]. by rewrite IH, andb_assoc.
Qed.

(** A token of hexadecimal digits contains no [Bearer ], so removing the
    word from a header built from it gives the token back. *)
Lemma hex_token_round_trip (token : string) :
  all_hex token = true →
  Py.startswith "Bearer " ("Bearer " +:+ token) = true
  ∧ Py.remove "Bearer " ("Bearer " +:+ token) = token.
Proof.
  intros Hhex. split; [apply PyFacts.startswith_bearer|].
  rewrite PyFacts.remove_bearer_prefix. apply PyFacts.remove_go_id.
  intros (a & b & ->). rewrite all_hex_app in Hhex.
  apply andb_prop in Hhex as [_ Hhex]. simpl in Hhex. discriminate.
Qed.

Lemma verify_token_run (token : string) (w : world) :
  all_hex token = true →
  verify_token ("Bearer " +:+ token) w
  = (match Disk.get (now w) token (sessions w) with
     | Some user_data => Ok user_data
     | None => Raise (HTTPException HTTP_401_UNAUTHORIZED)
     end, w).
Proof.
  intros Hhex. destruct (hex_token_round_trip token Hhex) as [Hp Hr].
  unfold verify_token. rewrite Hp, Hr. run.
  by destruct (Disk.get (now w) token (sessions w)).
Qed.

Lemma logout_route_run (token : string) (w : world) :
  all_hex token = true →
  logout_route ("Bearer " +:+ token) w
  = if Disk.contains (now w) token (sessions w)
    then (Ok (RDetail "Logout realizado com sucesso"),
          set_sessions (delete token (sessions w)) w)
    else (Raise (HTTPException HTTP_401_UNAUTHORIZED), w).
Proof.
  intros Hhex. destruct (hex_token_round_trip token Hhex) as [Hp Hr].
  unfold logout_route. rewrite Hp, Hr. run.
  by destruct (Disk.contains (now w) token (sessions w)).
Qed.

(** What a successful login leaves behind. *)
Lemma login_route_Ok (data : string → string) (token : string)
    (w w1 : world) (r : response) :
  login_route engine login_fields login_ttl data token w = (Ok r, w1) →
  ∃ user, r = RLogin token user
          ∧ w1 = set_sessions
                   (<[token := Stored user (Some (now w + login_ttl))]> (sessions w)) w.
Proof.
  unfold login_route, Disk.set. run.
  destruct (List.find (matches engine login_fields data) (db w)) as [u|]; [|done].
  intros [= <- <-]. by eexists.
Qed.

Lemma session_get_after_login (token : string) (user : item) (w : world) (t : Z) :
  Disk.get t token (<[token := Stored user (Some (now w + login_ttl))]> (sessions w))
  = if t <? now w + login_ttl then Some user else None.
Proof.
  unfold Disk.get. rewrite lookup_insert_eq. unfold Disk.alive. simpl.
  by destruct (t <? now w + login_ttl).
Qed.

(** X8.  The life of a session.  After a login that returned a token of
    hexadecimal digits, [verify_token] on the bearer header of that token
    yields the snapshot the login returned for as long as fewer than
    [login_ttl] seconds have passed, and raises unauthorized from then on.
    A logout within that time succeeds and removes that session only;
    after it both [verify_token] and a second logout raise unauthorized at
    any time. *)
Theorem session_lifecycle (data : string → string) (token : string)
    (w w1 : world) (r : response) :
  all_hex token = true →
  login_route engine login_fields login_ttl data token w = (Ok r, w1) →
  ∃ user,
    r = RLogin token user
    ∧ (∀ t, t < now w + login_ttl →
         verify_token ("Bearer " +:+ token) (set_now t w1) = (Ok user, set_now t w1))
    ∧ (∀ t, now w + login_ttl ≤ t →
         verify_token ("Bearer " +:+ token) (set_now t w1)
         = (Raise (HTTPException HTTP_401_UNAUTHORIZED), set_now t w1))
    ∧ (∀ t, t < now w + login_ttl →
         ∃ w2,
           logout_route ("Bearer " +:+ token) (set_now t w1)
           = (Ok (RDetail "Logout realizado com sucesso"), w2)
           ∧ (∀ other, other ≠ token → sessions w2 !! other = sessions w1 !! other)
           ∧ (∀ t', verify_token ("Bearer " +:+ token) (set_now t' w2)
                    = (Raise (HTTPException HTTP_401_UNAUTHORIZED), set_now t' w2))
           ∧ (∀ t', logout_route ("Bearer " +:+ token) (set_now t' w2)
                    = (Raise (HTTPException HTTP_401_UNAUTHORIZED), set_now t' w2))).
Proof.
  intros Hhex Hlogin.
  destruct (login_route_Ok _ _ _ _ _ Hlogin) as (user & -> & ->).
  exists user. split; [done|].
  pose proof (session_get_after_login token user w) as Hget.
  split; [|split; [|]].
  - intros t Ht. rewrite verify_token_run by done. simpl.
    by rewrite Hget, (proj2 (Z.ltb_lt _ _) Ht).
  - intros t Ht. rewrite verify_token_run by done. simpl.
    by rewrite Hget, (proj2 (Z.ltb_ge _ _) Ht).
  - intros t Ht. eexists. split; [|split; [|split]].
    + rewrite logout_route_run by done. unfold Disk.contains. simpl.
      rewrite Hget, (proj2 (Z.ltb_lt _ _) Ht). reflexivity.
    + intros other Hne. simpl. by rewrite lookup_delete_ne.
    + intros t'. rewrite verify_token_run by done. simpl.
      unfold Disk.get. by rewrite lookup_delete_eq.
    + intros t'. rewrite logout_route_run by done. unfold Disk.contains, Disk.get.
      simpl. by rewrite lookup_delete_eq.
Qed.

(** With [auth] off a handler runs as it is.  With [auth] on it runs,
    unchanged, when the header verifies, and otherwise the request is
    refused with unauthorized before the handler has done anything. *)
Lemma guarded_gate {A} (authorization : string) (handler : M A) (w : world) :
  guarded false authorization handler w = handler w
  ∧ (∀ user_data, fst (verify_token authorization w) = Ok user_data →
       guarded true authorization handler w = handler w)
  ∧ (∀ e, fst (verify_token authorization w) = Raise e →
       guarded true authorization handler w
       = (Raise (HTTPException HTTP_401_UNAUTHORIZED), w)).
Proof.
  split; [done|]. unfold guarded, verify_token.
  destruct (negb (Py.startswith "Bearer " authorization)); run.
  - split; [by intros ? [=] | done].
  - destruct (Disk.get (now w) _ (sessions w)); split; try done;
      try (by intros ? [=]).
Qed.

(** X9.  The authentication gate over the life of a session.  After a
    login that returned a token of hexadecimal digits, a handler gated by
    [auth] and called with the bearer header of that token runs exactly as
    the handler itself while the session lives.  Once [login_ttl] seconds
    have passed, or once a logout with that token has succeeded, the
    request is refused with unauthorized and the handler does nothing: the
    world is as it was. *)
Theorem gated_after_login {A} (data : string → string) (token : string)
    (w w1 : world) (r : response) (handler : M A) :
  all_hex token = true →
  login_route engine login_fields login_ttl data token w = (Ok r, w1) →
  (∀ t, t < now w + login_ttl →
     guarded true ("Bearer " +:+ token) handler (set_now t w1) = handler (set_now t w1))
  ∧ (∀ t, now w + login_ttl ≤ t →
     guarded true ("Bearer " +:+ token) handler (set_now t w1)
     = (Raise (HTTPException HTTP_401_UNAUTHORIZED), set_now t w1))
  ∧ (∀ t d w2, logout_route ("Bearer " +:+ token) (set_now t w1) = (Ok d, w2) →
     ∀ t', guarded true ("Bearer " +:+ token) handler (set_now t' w2)
           = (Raise (HTTPException HTTP_401_UNAUTHORIZED), set_now t' w2)).
Proof.
  intros Hhex Hlogin.
  destruct (login_route_Ok _ _ _ _ _ Hlogin) as (user & -> & ->).
  pose proof (session_get_after_login token user w) as Hget.
  split; [|split].
  - intros t Ht.
    destruct (guarded_gate ("Bearer " +:+ token) handler
                (set_now t (set_sessions
                   (<[token := Stored user (Some (now w + login_ttl))]> (sessions w)) w)))
      as (_ & Hok & _).
    apply (Hok user). rewrite verify_token_run by done. simpl.
    by rewrite Hget, (proj2 (Z.ltb_lt _ _) Ht).
  - intros t Ht.
    destruct (guarded_gate ("Bearer " +:+ token) handler
                (set_now t (set_sessions
                   (<[token := Stored user (Some (now w + login_ttl))]> (sessions w)) w)))
      as (_ & _ & Hno).
    apply (Hno (HTTPException HTTP_401_UNAUTHORIZED)).
    rewrite verify_token_run by done. simpl.
    by rewrite Hget, (proj2 (Z.ltb_ge _ _) Ht).
  - intros t d w2 Hout t'. rewrite logout_route_run in Hout by done.
    destruct (Disk.contains _ _ _) in Hout; [|done]. injection Hout as _ <-.
    destruct (guarded_gate ("Bearer " +:+ token) handler
                (set_now t' (set_sessions (delete token
                   (sessions (set_now t (set_sessions
                      (<[token := Stored user (Some (now w + login_ttl))]> (sessions w)) w))))
                   (set_now t (set_sessions
                      (<[token := Stored user (Some (now w + login_ttl))]> (sessions w)) w)))))
      as (_ & _ & Hno).
    apply (Hno (HTTPException HTTP_401_UNAUTHORIZED)).
    rewrite verify_token_run by done. simpl.
    unfold Disk.get. by rewrite lookup_delete_eq.
Qed.

End RouterFacts.

(** ** Construction and dispatch *)

(** X11.  Routes are tried in the order of the decorators, and the
    template with the path parameter is registered before [/bulk] for
    PATCH and for DELETE.  So no path reaches [update_items] or
    [delete_items]: a PATCH or DELETE of [/bulk] is handed to the
    single-item handler.  GET [/count] and POST [/bulk], registered ahead
    of any parameter template, do reach [count_items] and
    [create_items]. *)
Theorem bulk_routes_shadowed (path : string) :
  dispatch crud_routes PATCH path ≠ Some UPDATE_ITEMS
  ∧ dispatch crud_routes DELETE path ≠ Some DELETE_ITEMS
  ∧ dispatch crud_routes PATCH "/bulk" = Some UPDATE_ITEM
  ∧ dispatch crud_routes DELETE "/bulk" = Some DELETE_ITEM
  ∧ dispatch crud_routes GET "/count" = Some COUNT_ITEMS
  ∧ dispatch crud_routes POST "/bulk" = Some CREATE_ITEMS.
Proof.
  split; [|split; [|by vm_compute]].
  - unfold dispatch, crud_routes. destruct (String.eqb path "/bulk") eqn:Hb.
    + apply String.eqb_eq in Hb as ->. by vm_compute.
    + simpl. rewrite Hb. destruct path as [|c rest]; [done|]. by destruct (_ && _).
  - unfold dispatch, crud_routes. destruct (String.eqb path "/bulk") eqn:Hb.
    + apply String.eqb_eq in Hb as ->. by vm_compute.
    + simpl. rewrite Hb. destruct path as [|c rest]; [done|]. by destruct (_ && _).
Qed.

(** X12.  [crud_router] creates its semaphore before it looks at [login]:
    with the capacity [max_concurrent or cpu_count()], which is
    [max_concurrent] unless that is [None] or [0], it raises [TypeError]
    exactly when the capacity is [None], and [ValueError] exactly when the
    capacity is negative or, the capacity being a number that is not
    negative, the router is a login router whose [login_fields] are
    missing, empty, or name a field the model does not declare.  It raises
    nothing else.  A login router mounts only the login and logout
    handlers; any other router mounts none of them. *)
Theorem crud_router_config (model_fields : list string)
    (max_concurrent cpu_count : option Z) (login : bool)
    (login_fields : option (list string)) :
  let built := crud_router model_fields max_concurrent cpu_count login login_fields in
  let cap := capacity max_concurrent cpu_count in
  (cap = match max_concurrent with
         | Some v => if v =? 0 then cpu_count else Some v
         | None => cpu_count
         end)
  ∧ (built = inl TypeError ↔ cap = None)
  ∧ (built = inl ValueError
     ↔ ∃ v, cap = Some v
            ∧ (v < 0
               ∨ (0 ≤ v ∧ login = true
                  ∧ (login_fields = None ∨ login_fields = Some []
                     ∨ ∃ fields field, login_fields = Some fields
                                       ∧ field ∈ fields ∧ field ∉ model_fields))))
  ∧ (∀ e, built = inl e → e = TypeError ∨ e = ValueError)
  ∧ (∀ routes m path h,
       built = inr routes →
       dispatch routes m path = Some h →
       if login then h = LOGIN_ROUTE ∨ h = LOGOUT_ROUTE
       else h ≠ LOGIN_ROUTE ∧ h ≠ LOGOUT_ROUTE).
Proof.
  intros built cap. split.
  { unfold cap, capacity, truthy. destruct max_concurrent as [v|]; [|done].
    by destruct (v =? 0). }
  unfold built, crud_router, Semaphore. fold cap.
  destruct cap as [v|].
  2:{ split; [done|]. split; [|split; [|done]].
      - split; [done | by intros (v & ? & _)].
      - intros e [= <-]. by left. }
  destruct (Z.ltb_spec v 0) as [Hneg|Hpos].
  { split; [done|]. split; [|split; [|done]].
    - split; [|done]. intros _. exists v. split; [done | by left].
    - intros e [= <-]. by right. }
  split.
  { split; [|done]. destruct login; [|done].
    destruct login_fields as [[|f fields]|]; try done.
    by destruct (forallb _ _). }
  assert (∀ fields, forallb (λ field, bool_decide (field ∈ model_fields)) fields = false
                    ↔ ∃ field, field ∈ fields ∧ field ∉ model_fields) as Hbad.
  { intros fields. split.
    - intros Hall. apply not_true_iff_false in Hall.
      destruct (decide (Forall (λ x, x ∈ model_fields) fields)) as [Hf|Hf].
      + destruct Hall. apply forallb_forall. intros x Hx.
        apply bool_decide_eq_true. rewrite Forall_forall in Hf.
        apply Hf. by apply list_elem_of_In.
      + apply not_Forall_Exists in Hf; [|apply _].
        apply Exists_exists in Hf as (x & Hx & Hnot). by exists x.
    - intros (x & Hin & Hnot). apply not_true_iff_false. intros Hall.
      rewrite forallb_forall in Hall. apply list_elem_of_In in Hin.
      specialize (Hall x Hin). by apply bool_decide_eq_true in Hall. }
  split; [|split].
  - destruct login.
    2:{ split; [done|]. intros (v' & [= <-] & [?|(_ & ? & _)]); [lia | done]. }
    destruct login_fields as [[|f fields]|].
    + split; [|done]. intros _. exists v. split; [done|]. right. auto.
    + destruct (forallb _ (f :: fields)) eqn:Hall.
      * split; [done|]. intros (v' & [= <-] & [?|(_ & _ & H)]); [lia|].
        destruct H as [?|[?|(fs & x & [= <-] & Hin & Hnot)]]; try done.
        assert (forallb (λ field, bool_decide (field ∈ model_fields)) (f :: fields)
                = false) as Hf by (apply Hbad; by exists x).
        congruence.
      * split; [|done]. intros _. exists v. split; [done|]. right.
        split; [done|]. split; [done|]. right. right.
        apply Hbad in Hall as (x & Hin & Hnot). by exists (f :: fields), x.
    + split; [|done]. intros _. exists v. split; [done|]. right. auto.
  - intros e. destruct login; [|done].
    destruct login_fields as [[|f fields]|].
    + intros [= <-]. by right.
    + destruct (forallb _ _); [done|]. intros [= <-]. by right.
    + intros [= <-]. by right.
  - intros routes m path h Hr Hd.
    destruct login.
    + destruct login_fields as [[|f fields]|]; try done.
      destruct (forallb _ _); [|done]. injection Hr as <-.
      unfold dispatch, login_routes in Hd. simpl in Hd.
      repeat (destruct (_ && _) in Hd; simpl in Hd; [injection Hd as <-; auto|]).
      done.
    + injection Hr as <-. unfold dispatch, crud_routes in Hd. simpl in Hd.
      repeat (destruct (_ && _) in Hd; simpl in Hd; [by injection Hd as <-|]).
      done.
Qed.


(** ** Runs on the sample data *)


(** C5, at a ttl of 0.  With [ttl = 0] configured and [ann] in the table,
    a [read_item 1] that misses the cache writes an entry that carries no
    expiry, not one that expires 0 seconds after it was written: the test
    [use_ttl and ttl] in [_set_cache] takes the configured 0 for "no ttl".
    The entry is then served at every later time, whatever has become of
    the row, whereas with a ttl of 1 the entry is gone a second later. *)
Theorem zero_ttl_entry_never_expires :
  let w := Sample.w_ann in
  let w' := snd (read_item "user" (Some 0) 1 w) in
  let w1 := snd (read_item "user" (Some 1) 1 w) in
  Disk.get (now w) (key_id "user" 1) (cache w) = None
  ∧ cache w' !! key_id "user" 1 = Some (Stored (CItem Sample.ann) None)
  ∧ cache w' !! key_id "user" 1 ≠ Some (Stored (CItem Sample.ann) (Some (now w + 0)))
  ∧ (∀ t d, read_item "user" (Some 0) 1 (set_now t (set_db d w'))
            = (Ok (RBody (CItem Sample.ann)), set_now t (set_db d w')))
  ∧ cache w1 !! key_id "user" 1 = Some (Stored (CItem Sample.ann) (Some (now w + 1)))
  ∧ fst (read_item "user" (Some 1) 1 (set_now (now w + 1) (set_db [] w1)))
    = Raise (HTTPException HTTP_404_NOT_FOUND).
Proof.
  assert (cache (snd (read_item "user" (Some 0) 1 Sample.w_ann)) !! key_id "user" 1
          = Some (Stored (CItem Sample.ann) None)) as H by (vm_compute; reflexivity).
  cbv zeta. split; [vm_compute; reflexivity|]. split; [exact H|]. split.
  - rewrite H. discriminate.
  - split; [|split; vm_compute; reflexivity].
    remember (snd (read_item "user" (Some 0) 1 Sample.w_ann)) as w' eqn:Hw'.
    clear Hw'. intros t d. apply read_item_hit.
    unfold Disk.get, set_now, set_db. cbn [cache now]. by rewrite H.
Qed.

(** *** Instances of the theorems *)

Lemma create_item_then_read_witness :
  let out := create_item "user" (Some 60) Sample.bob_new Sample.w_ann in
  out = (Ok (RBody (CItem Sample.bob)), snd out)
  ∧ ∃ i, RBody (CItem Sample.bob) = RBody (CItem (<["id" := VInt i]> Sample.bob_new))
         ∧ (∀ j, Sample.bob_new !! "id" = Some (VInt j) → j = i)
         ∧ (∀ f, f ≠ "id" → (<["id" := VInt i]> Sample.bob_new) !! f = Sample.bob_new !! f)
         ∧ Table.get i (db (snd out)) = Some (<["id" := VInt i]> Sample.bob_new)
         ∧ ∀ t, fst (read_item "user" (Some 60) i (set_now t (snd out)))
                = Ok (RBody (CItem Sample.bob)).
Proof.
  cbv zeta. split; [vm_compute; reflexivity|].
  apply (create_item_then_read "user" (Some 60) Sample.bob_new Sample.w_ann).
  vm_compute; reflexivity.
Defined.

Lemma delete_item_then_read_witness :
  is_Some (Table.get 1 (db Sample.w_ann))
  ∧ ∃ w', delete_item "user" 1 Sample.w_ann = (Ok RNone, w')
          ∧ cache w' !! key_id "user" 1 = None
          ∧ ∀ t, read_item "user" (Some 60) 1 (set_now t w')
                 = (Raise (HTTPException HTTP_404_NOT_FOUND), set_now t w').
Proof.
  split; [by eexists|].
  apply (delete_item_then_read "user" (Some 60) 1 Sample.w_ann). by eexists.
Defined.

Lemma delete_missing_id_witness :
  Table.get 5 (db Sample.w_ann) = None
  ∧ delete_item "user" 5 Sample.w_ann
    = (Raise (HTTPException HTTP_404_NOT_FOUND), Sample.w_ann)
  ∧ 5 ∈ [1; 5]
  ∧ ∃ w', delete_items "user" [1; 5] Sample.w_ann = (Ok RNone, w')
          ∧ (WARNING, not_found_msg (Py.str_of_int 5)) ∈ log w'
          ∧ (∀ j, j ∈ [1; 5] → Table.get j (db w') = None)
          ∧ (∀ j, j ∉ [1; 5] → Table.get j (db w') = Table.get j (db Sample.w_ann)).
Proof.
  destruct (delete_missing_id "user" 5 Sample.w_ann eq_refl) as [H1 H2].
  assert (5 ∈ [1; 5]) as Hin by (right; left).
  split; [reflexivity|]. split; [exact H1|]. split; [exact Hin|].
  exact (H2 [1; 5] Hin).
Defined.


Lemma login_route_spec_witness :
  login_route Sample.engine ["email"] 3600 Sample.form_nobody "5f2c" Sample.w_ann_bob
  = (Raise (HTTPException HTTP_401_UNAUTHORIZED), Sample.w_ann_bob)
  ∧ ∃ user,
      user ∈ db Sample.w_ann_bob
      ∧ (∀ f, f ∈ ["id"] →
           sql_eq Sample.engine (getattr user f) (Sample.form_one f) = true)
      ∧ (∀ f, login_subset ["id"] user !! f
              = if bool_decide (f ∈ ["id"]) then Some (getattr user f) else None)
      ∧ login_route Sample.engine ["id"] 3600 Sample.form_one "5f2c" Sample.w_ann_bob
        = (Ok (RLogin "5f2c" (login_subset ["id"] user)),
           set_sessions
             (<["5f2c" := Stored (login_subset ["id"] user)
                                 (Some (now Sample.w_ann_bob + 3600))]>
                (sessions Sample.w_ann_bob)) Sample.w_ann_bob).
Proof.
  split.
  - apply (login_route_spec Sample.engine ["email"] 3600 Sample.form_nobody "5f2c"
             Sample.w_ann_bob).
    intros r Hr Hall. specialize (Hall "email" (list_elem_of_here _ _)).
    apply elem_of_cons in Hr as [->|Hr]; [discriminate Hall|].
    apply elem_of_cons in Hr as [->|Hr]; [discriminate Hall|].
    by apply elem_of_nil in Hr.
  - apply (login_route_spec Sample.engine ["id"] 3600 Sample.form_one "5f2c"
             Sample.w_ann_bob).
    exists Sample.ann. split; [left|].
    intros f Hf. apply elem_of_cons in Hf as [->|Hf]; [reflexivity|].
    by apply elem_of_nil in Hf.
Defined.

Lemma bearer_token_lookup_witness :
  Py.occurs "Bearer " "Bearer 5f2c"
  ∧ Py.remove "Bearer " "Bearer 5f2c" ≠ "Bearer 5f2c"
  ∧ ¬ Py.occurs "Bearer " "5f2c"
  ∧ Py.remove "Bearer " "5f2c" = "5f2c"
  ∧ Py.remove "Bearer " "Bearer Bearer 5f2c" = "5f2c".
Proof.
  destruct (bearer_token_lookup "Bearer 5f2c" Sample.w_empty) as (H1 & _ & _ & H2 & _).
  destruct (bearer_token_lookup "5f2c" Sample.w_empty) as (_ & _ & _ & _ & H3).
  assert (Py.occurs "Bearer " "Bearer 5f2c") as Hocc.
  { exists EmptyString, "5f2c"%string. reflexivity. }
  assert (¬ Py.occurs "Bearer " "5f2c") as Hno.
  { intros H. apply PyFacts.remove_go_shorter in H; [|discriminate].
    vm_compute in H. lia. }
  split; [exact Hocc|]. split; [exact (H2 Hocc)|]. split; [exact Hno|].
  split; [exact (H3 Hno)|]. exact H1.
Defined.


(** *** Instances of the further theorems *)

Lemma coherent_w_cached : coherent "user" Sample.w_cached.
Proof.
  intros i e He _. destruct (decide (i = 1)) as [->|Hne].
  - exists Sample.ann. vm_compute in He. injection He as <-. by split.
  - exfalso. unfold Sample.w_cached in He. cbn [cache] in He.
    change "user_1"%string with (key_id "user" 1) in He.
    rewrite lookup_singleton_ne in He; [done|].
    intros H. apply key_id_inj in H. by apply Hne.
Defined.

Lemma handlers_keep_cache_coherent_witness :
  coherent "user" Sample.w_cached
  ∧ Disk.get (now Sample.w_cached) (key_id "user" 1) (cache Sample.w_cached)
    = Some (CItem Sample.ann)
  ∧ coherent "user" (snd (create_item "user" (Some 60) Sample.bob_new Sample.w_cached))
  ∧ coherent "user" (snd (read_item "user" (Some 60) 1 Sample.w_cached))
  ∧ coherent "user"
      (snd (update_item "user" (Some 60) 1 {["name" := VStr "anna"]} Sample.w_cached))
  ∧ coherent "user"
      (snd (update_items Sample.engine "user" Sample.non_field (Some 60)
              [Sample.rename_ann_str] Sample.w_cached))
  ∧ coherent "user" (snd (delete_item "user" 1 Sample.w_cached))
  ∧ coherent "user" (snd (delete_items "user" [1; 1; 5] Sample.w_cached)).
Proof.
  destruct (handlers_keep_cache_coherent Sample.engine "user" Sample.non_field
              (Some 60) ["email"] 3600 Sample.w_cached coherent_w_cached)
    as (Hc & _ & _ & _ & Hr & Hu & Hub & Hd & Hds & _).
  split; [exact coherent_w_cached|]. split; [reflexivity|].
  split; [apply Hc|]. split; [apply Hr|].
  split; [|split; [apply Hub|split; [apply Hd | apply Hds]]].
  apply Hu. intros v Hv. vm_compute in Hv. discriminate Hv.
Defined.

Lemma read_item_agrees_with_table_witness :
  coherent "user" Sample.w_cached
  ∧ Disk.get (now Sample.w_cached) (key_id "user" 1) (cache Sample.w_cached)
    = Some (CItem Sample.ann)
  ∧ Disk.get (now Sample.w_cached) (key_id "user" 2) (cache Sample.w_cached) = None
  ∧ fst (read_item "user" (Some 60) 1 Sample.w_cached) = Ok (RBody (CItem Sample.ann))
  ∧ fst (read_item "user" (Some 60) 2 Sample.w_cached) = Ok (RBody (CItem Sample.bob))
  ∧ fst (read_item "user" (Some 60) 5 Sample.w_cached)
    = Raise (HTTPException HTTP_404_NOT_FOUND).
Proof.
  split; [exact coherent_w_cached|]. split; [reflexivity|]. split; [reflexivity|].
  split; [|split].
  - exact (read_item_agrees_with_table "user" (Some 60) 1 Sample.w_cached
             coherent_w_cached).
  - exact (read_item_agrees_with_table "user" (Some 60) 2 Sample.w_cached
             coherent_w_cached).
  - exact (read_item_agrees_with_table "user" (Some 60) 5 Sample.w_cached
             coherent_w_cached).
Defined.

Lemma count_fresh_after_write_witness :
  let out := create_item "user" (Some 60) Sample.bob_new Sample.w_ann in
  out = (Ok (RBody (CItem Sample.bob)), snd out)
  ∧ ∀ t, fst (count_items "user" (Some 60) (set_now t (snd out)))
         = Ok (RCount (CInt 2)).
Proof.
  cbv zeta.
  assert (create_item "user" (Some 60) Sample.bob_new Sample.w_ann
          = (Ok (RBody (CItem Sample.bob)),
             snd (create_item "user" (Some 60) Sample.bob_new Sample.w_ann))) as H
    by (vm_compute; reflexivity).
  split; [exact H|].
  exact (count_fresh_after_write Sample.engine "user" Sample.non_field (Some 60)
           Sample.w_ann _ _ (or_introl (ex_intro _ Sample.bob_new H))).
Defined.


Lemma create_items_all_or_nothing_witness :
  let out := create_items "user" (Some 60) [Sample.bob_new] Sample.w_ann in
  let bad := create_items "user" (Some 60) [Sample.bob_new; Sample.ann] Sample.w_ann in
  out = (Ok (RBody (CList [Sample.bob])), snd out)
  ∧ bad = (Raise IntegrityError, snd bad)
  ∧ snd bad = Sample.w_ann
  ∧ ∃ items',
      RBody (CList [Sample.bob]) = RBody (CList items')
      ∧ db (snd out) = db Sample.w_ann ++ items'
      ∧ Forall2 (λ it it', ∃ i, it' = <["id" := VInt i]> it) [Sample.bob_new] items'
      ∧ ∀ it', it' ∈ items' →
          ∃ i, it' !! "id" = Some (VInt i)
               ∧ Table.get i (db Sample.w_ann) = None
               ∧ ∀ t, fst (read_item "user" (Some 60) i (set_now t (snd out)))
                      = Ok (RBody (CItem it')).
Proof.
  cbv zeta.
  assert (create_items "user" (Some 60) [Sample.bob_new] Sample.w_ann
          = (Ok (RBody (CList [Sample.bob])),
             snd (create_items "user" (Some 60) [Sample.bob_new] Sample.w_ann))) as H
    by (vm_compute; reflexivity).
  assert (create_items "user" (Some 60) [Sample.bob_new; Sample.ann] Sample.w_ann
          = (Raise IntegrityError,
             snd (create_items "user" (Some 60) [Sample.bob_new; Sample.ann] Sample.w_ann)))
    as Hbad by (vm_compute; reflexivity).
  destruct (create_items_all_or_nothing "user" (Some 60) [Sample.bob_new] Sample.w_ann)
    as [_ Hok].
  destruct (create_items_all_or_nothing "user" (Some 60) [Sample.bob_new; Sample.ann]
              Sample.w_ann) as [Hfail _].
  split; [exact H|]. split; [exact Hbad|]. split; [exact (Hfail _ _ Hbad)|].
  exact (Hok _ _ H).
Defined.


Lemma session_lifecycle_witness :
  let out := login_route Sample.engine ["email"] 3600 Sample.form_ann "5f2c" Sample.w_ann_bob in
  all_hex "5f2c" = true
  ∧ out = (Ok (RLogin "5f2c" (login_subset ["email"] Sample.ann)), snd out)
  ∧ ∃ user,
      RLogin "5f2c" (login_subset ["email"] Sample.ann) = RLogin "5f2c" user
      ∧ (∀ t, t < now Sample.w_ann_bob + 3600 →
           verify_token ("Bearer " +:+ "5f2c") (set_now t (snd out))
           = (Ok user, set_now t (snd out)))
      ∧ (∀ t, now Sample.w_ann_bob + 3600 ≤ t →
           verify_token ("Bearer " +:+ "5f2c") (set_now t (snd out))
           = (Raise (HTTPException HTTP_401_UNAUTHORIZED), set_now t (snd out)))
      ∧ (∀ t, t < now Sample.w_ann_bob + 3600 →
           ∃ w2,
             logout_route ("Bearer " +:+ "5f2c") (set_now t (snd out))
             = (Ok (RDetail "Logout realizado com sucesso"), w2)
             ∧ (∀ other, other ≠ "5f2c" → sessions w2 !! other = sessions (snd out) !! other)
             ∧ (∀ t', verify_token ("Bearer " +:+ "5f2c") (set_now t' w2)
                      = (Raise (HTTPException HTTP_401_UNAUTHORIZED), set_now t' w2))
             ∧ (∀ t', logout_route ("Bearer " +:+ "5f2c") (set_now t' w2)
                      = (Raise (HTTPException HTTP_401_UNAUTHORIZED), set_now t' w2))).
Proof.
  cbv zeta.
  assert (login_route Sample.engine ["email"] 3600 Sample.form_ann "5f2c" Sample.w_ann_bob
          = (Ok (RLogin "5f2c" (login_subset ["email"] Sample.ann)),
             snd (login_route Sample.engine ["email"] 3600 Sample.form_ann "5f2c" Sample.w_ann_bob)))
    as H by (vm_compute; reflexivity).
  split; [reflexivity|]. split; [exact H|].
  exact (session_lifecycle Sample.engine ["email"] 3600 Sample.form_ann "5f2c"
           Sample.w_ann_bob _ _ eq_refl H).
Defined.

Lemma gated_after_login_witness :
  let out := login_route Sample.engine ["email"] 3600 Sample.form_ann "5f2c" Sample.w_ann_bob in
  let handler := delete_item "user" 2 in
  all_hex "5f2c" = true
  ∧ out = (Ok (RLogin "5f2c" (login_subset ["email"] Sample.ann)), snd out)
  ∧ (∀ t, t < now Sample.w_ann_bob + 3600 →
       guarded true ("Bearer " +:+ "5f2c") handler (set_now t (snd out))
       = handler (set_now t (snd out)))
  ∧ (∀ t, now Sample.w_ann_bob + 3600 ≤ t →
       guarded true ("Bearer " +:+ "5f2c") handler (set_now t (snd out))
       = (Raise (HTTPException HTTP_401_UNAUTHORIZED), set_now t (snd out))).
Proof.
  cbv zeta.
  assert (login_route Sample.engine ["email"] 3600 Sample.form_ann "5f2c" Sample.w_ann_bob
          = (Ok (RLogin "5f2c" (login_subset ["email"] Sample.ann)),
             snd (login_route Sample.engine ["email"] 3600 Sample.form_ann "5f2c" Sample.w_ann_bob)))
    as H by (vm_compute; reflexivity).
  destruct (gated_after_login Sample.engine ["email"] 3600 Sample.form_ann "5f2c"
              Sample.w_ann_bob _ _ (delete_item "user" 2) eq_refl H) as (H1 & H2 & _).
  split; [reflexivity|]. split; [exact H|]. split; [exact H1 | exact H2].
Defined.

Lemma page_served_until_expiry_witness :
  let w1 := snd (read_items "user" (Some 60) 0 100 Sample.w_ann) in
  let w1' := snd (read_items "user" None 0 100 Sample.w_ann) in
  fst (read_items "user" (Some 60) 0 100 (set_now 59 (set_db [Sample.ann; Sample.bob] w1)))
  = Ok (RBody (CList [Sample.ann]))
  ∧ fst (read_items "user" (Some 60) 0 100 (set_now 60 (set_db [Sample.ann; Sample.bob] w1)))
    = Ok (RBody (CList [Sample.ann; Sample.bob]))
  ∧ ∀ t, fst (read_items "user" None 0 100 (set_now t (set_db [Sample.ann; Sample.bob] w1')))
         = Ok (RBody (CList [Sample.ann])).
Proof.
  cbv zeta.
  destruct (page_served_until_expiry "user" (Some 60) 0 100 Sample.w_ann
              ltac:(lia) ltac:(lia) eq_refl) as [H _].
  destruct (page_served_until_expiry "user" None 0 100 Sample.w_ann
              ltac:(lia) ltac:(lia) eq_refl) as [_ H'].
  split; [|split].
  - apply (H 60 [Sample.ann; Sample.bob] 59 eq_refl); simpl; lia.
  - apply (H 60 [Sample.ann; Sample.bob] 60 eq_refl); simpl; lia.
  - intros t. apply H'. by left.
Defined.

Lemma crud_router_config_witness :
  crud_router ["id"; "name"; "email"] (Some (-1)) (Some 8) false None = inl ValueError
  ∧ crud_router ["id"; "name"; "email"] (Some 0) None false None = inl TypeError
  ∧ crud_router ["id"; "name"; "email"] None (Some 8) true (Some ["email"; "cpf"])
    = inl ValueError
  ∧ crud_router ["id"; "name"; "email"] None (Some 8) true None = inl ValueError
  ∧ crud_router ["id"; "name"; "email"] None (Some 8) true (Some ["email"])
    = inr login_routes
  ∧ (dispatch login_routes POST "/login" = Some LOGIN_ROUTE →
     LOGIN_ROUTE = LOGIN_ROUTE ∨ LOGIN_ROUTE = LOGOUT_ROUTE).
Proof.
  destruct (crud_router_config ["id"; "name"; "email"] (Some (-1)) (Some 8) false None)
    as (_ & _ & H1 & _).
  destruct (crud_router_config ["id"; "name"; "email"] (Some 0) None false None)
    as (_ & H2 & _).
  destruct (crud_router_config ["id"; "name"; "email"] None (Some 8) true
              (Some ["email"; "cpf"])) as (_ & _ & H3 & _).
  destruct (crud_router_config ["id"; "name"; "email"] None (Some 8) true None)
    as (_ & _ & H4 & _).
  destruct (crud_router_config ["id"; "name"; "email"] None (Some 8) true
              (Some ["email"])) as (_ & _ & _ & _ & H5).
  split; [|split; [|split; [|split; [|split; [reflexivity|]]]]].
  - apply H1. exists (-1). split; [reflexivity|]. left. lia.
  - apply H2. reflexivity.
  - apply H3. exists 8. split; [reflexivity|]. right. split; [lia|]. split; [done|].
    right. right. exists ["email"; "cpf"], "cpf"%string.
    split; [done|]. split; [right; left|].
    intros H. vm_compute in H. by repeat (apply elem_of_cons in H as [H|H]; [discriminate H|]);
      apply elem_of_nil in H.
  - apply H4. exists 8. split; [reflexivity|]. right. split; [lia|]. split; [done|].
    by left.
  - exact (H5 login_routes POST "/login"%string LOGIN_ROUTE eq_refl).
Defined.

Lemma read_item_never_stale_witness :
  let reqs := [ Read 1; Update 1 {["name" := VStr "anna"]}; Wait 30; Create Sample.bob_new;
                UpdateBulk [Sample.rename_ann]; Wait 100; Delete 2 ] in
  let w' := serve_all Sample.engine "user" Sample.non_field (Some 60) reqs Sample.w_ann in
  cache Sample.w_ann = ∅
  ∧ Forall keeps_key reqs
  ∧ fst (read_item "user" (Some 60) 1 w') = Ok (RBody (CItem Sample.anna))
  ∧ fst (read_item "user" (Some 60) 2 w') = Raise (HTTPException HTTP_404_NOT_FOUND).
Proof.
  cbv zeta.
  assert (Forall keeps_key
            [ Read 1; Update 1 {["name" := VStr "anna"]}; Wait 30; Create Sample.bob_new;
              UpdateBulk [Sample.rename_ann]; Wait 100; Delete 2 ]) as Hk.
  { repeat constructor. intros v Hv. vm_compute in Hv. discriminate Hv. }
  split; [reflexivity|]. split; [exact Hk|]. split.
  - rewrite (read_item_never_stale Sample.engine "user" Sample.non_field (Some 60) _
               Sample.w_ann 1 eq_refl Hk).
    vm_compute. reflexivity.
  - rewrite (read_item_never_stale Sample.engine "user" Sample.non_field (Some 60) _
               Sample.w_ann 2 eq_refl Hk).
    vm_compute. reflexivity.
Defined.
